(** * Verification of the ofair-make-integration gateway

    A shallow embedding of the Supabase edge functions of the repository:
    the API-key authenticator ([_shared/apiKeyAuth.ts]), the rate limiter
    and the request logger ([_shared/requestLogger.ts]) and the
    [submit-lead-api] handler.

    Conventions of the embedding.
    - Instants ([Date], TIMESTAMPTZ columns) are integers: milliseconds
      since the epoch.  JavaScript numbers holding counters and ceilings
      are integers as well.
    - Every [new Date()] and [Date.now()] consumes the next reading of the
      wall clock: the world carries the stream of readings and the number
      of readings consumed so far.
    - The store answers every query: a [select] sees the current table and
      an [update], [insert] or [upsert] takes effect.  [.single()] yields a
      row only when exactly one row matches.
    - [await] points are the places where calls of different requests may
      interleave; a store round trip is one atomic step.
    - The local time of the host is UTC plus a constant offset, as on a
      host that runs in UTC.  A host whose offset changes over the year
      (daylight saving) is not covered: there a local day can last 23 or
      25 hours and the windows of the rate limiter differ from the ones
      computed here. *)

From Stdlib Require Import ZArith Lia List Ascii String.
From stdpp Require Import base tactics option list gmap strings pretty.

Open Scope string_scope.
Open Scope list_scope.
Open Scope Z_scope.

(** ** The host: clock, store and runtime services *)

(** Services of the JavaScript host that the code calls and that are not
    part of the repository. *)
Class Runtime := {
  (** [crypto.subtle.digest('SHA-256', ..)] rendered as lower-case hex *)
  hashApiKey : string -> string;
  (** [Date.prototype.toISOString] *)
  toISOString : Z -> string;
  (** the host's local time is UTC plus this many milliseconds, at every
      instant *)
  tzOffsetMs : Z
}.

(** [api_keys] *)
Record ApiKeyRow := {
  key_id : string;
  key_professional_id : string;
  key_hash : string;
  key_is_active : bool;
  key_last_used_at : option Z;
  key_expires_at : option Z;
  key_revoked_at : option Z
}.

(** The three columns that [getRateLimitConfig] selects. *)
Record RateLimitConfig := {
  requests_per_minute : Z;
  requests_per_hour : Z;
  requests_per_day : Z
}.

(** [api_rate_limit_config] *)
Record ConfigRow := {
  cfg_scope : string;
  cfg_scope_id : option string;
  cfg_limits : RateLimitConfig;
  cfg_is_active : bool
}.

(** [api_rate_limit_tracking] *)
Record TrackingRow := {
  identifier : string;
  identifier_type : string;
  minute_window : Z;
  minute_count : Z;
  hour_window : Z;
  hour_count : Z;
  day_window : Z;
  day_count : Z;
  last_request_at : Z
}.

(** JSON values.  A body is a top-level object (a map from field names to
    values); what is nested below a field is never written by the gateway
    and is kept as an immutable tree. *)
#[local] Unset Elimination Schemes.
Inductive JsValue :=
| JsNull
| JsBool (b : bool)
| JsNumber (n : Z)
| JsString (s : string)
| JsArray (items : list JsValue)
| JsObject (fields : list (string * JsValue)).
#[local] Set Elimination Schemes.

(** [api_request_logs] *)
Record LogRow := {
  log_request_id : string;
  log_api_key_id : option string;
  log_professional_id : option string;
  log_endpoint : string;
  log_method : string;
  log_request_body : option (gmap string JsValue);
  log_client_ip : option string;
  log_response_status : Z;
  log_response_body : option (gmap string JsValue);
  log_lead_id : option string;
  log_error_code : option string;
  log_error_message : option string;
  log_processing_time_ms : Z
}.

Record Database := {
  api_keys : list ApiKeyRow;
  api_rate_limit_config : list ConfigRow;
  api_rate_limit_tracking : list TrackingRow;
  api_request_logs : list LogRow
}.

Record World := {
  db : Database;
  (** the objects of the JavaScript heap that hold request bodies *)
  heap : gmap positive (gmap string JsValue);
  (** the readings the wall clock will give, in order *)
  clock : nat -> Z;
  (** how many readings were taken *)
  ticks : nat;
  (** the values [crypto.randomUUID()] will give, in order *)
  uuids : nat -> string;
  uuid_next : nat;
  (** [Deno.env] *)
  env : string -> option string
}.

(** Computations that read and write the world. *)
Definition M (A : Type) : Type := World -> A * World.

Definition ret {A} (a : A) : M A := fun w => (a, w).

Definition bind {A B} (m : M A) (k : A -> M B) : M B :=
  fun w => let (a, w1) := m w in k a w1.

Notation "'let*' x ':=' m 'in' k" := (bind m (fun x => k))
  (at level 10, x pattern, m at level 100, k at level 200).

Definition set_db (d : Database) (w : World) : World :=
  {| db := d; heap := heap w; clock := clock w; ticks := ticks w;
     uuids := uuids w; uuid_next := uuid_next w; env := env w |}.

Definition set_heap (h : gmap positive (gmap string JsValue)) (w : World) : World :=
  {| db := db w; heap := h; clock := clock w; ticks := ticks w;
     uuids := uuids w; uuid_next := uuid_next w; env := env w |}.

(** [new Date()] and [Date.now()] *)
Definition newDate : M Z :=
  fun w => (clock w (ticks w),
            {| db := db w; heap := heap w; clock := clock w;
               ticks := S (ticks w);
               uuids := uuids w; uuid_next := uuid_next w; env := env w |}).

(** The world after [n] more readings of the clock. *)
Definition advance (n : nat) (w : World) : World :=
  {| db := db w; heap := heap w; clock := clock w; ticks := n + ticks w;
     uuids := uuids w; uuid_next := uuid_next w; env := env w |}.

(** [crypto.randomUUID()] *)
Definition randomUUID : M string :=
  fun w => (uuids w (uuid_next w),
            {| db := db w; heap := heap w; clock := clock w; ticks := ticks w;
               uuids := uuids w; uuid_next := S (uuid_next w); env := env w |}).

(** [.single()]: the row when exactly one matches, [null] otherwise. *)
Definition single {A} (rows : list A) : option A :=
  match rows with
  | [r] => Some r
  | _ => None
  end.

(** [supabase.from(t).select(..).eq(..)...single()] *)
Definition select_single {A} (table : Database -> list A) (p : A -> bool)
  : M (option A) :=
  fun w => (single (List.filter p (table (db w))), w).

Definition opt_eqb (a b : option string) : bool :=
  match a, b with
  | Some x, Some y => String.eqb x y
  | None, None => true
  | _, _ => false
  end.

(** ** requestLogger.ts, rate limiting *)

Definition DEFAULT_LIMITS : RateLimitConfig :=
  {| requests_per_minute := 60;
     requests_per_hour := 1000;
     requests_per_day := 10000 |}.

Definition config_matches (scope : string) (scope_id : option string)
    (r : ConfigRow) : bool :=
  String.eqb (cfg_scope r) scope && opt_eqb (cfg_scope_id r) scope_id
  && cfg_is_active r.

Definition getRateLimitConfig (apiKeyId professionalId : string)
  : M RateLimitConfig :=
  let* keyConfig :=
    select_single api_rate_limit_config
      (config_matches "api_key" (Some apiKeyId)) in
  match keyConfig with
  | Some r => ret (cfg_limits r)
  | None =>
    let* proConfig :=
      select_single api_rate_limit_config
        (config_matches "professional" (Some professionalId)) in
    match proConfig with
    | Some r => ret (cfg_limits r)
    | None =>
      let* globalConfig :=
        select_single api_rate_limit_config (config_matches "global" None) in
      match globalConfig with
      | Some r => ret (cfg_limits r)
      | None => ret DEFAULT_LIMITS
      end
    end
  end.

Inductive WindowType := minute | hour | day.

Definition windowMs (t : WindowType) : Z :=
  match t with
  | minute => 60 * 1000
  | hour => 60 * 60 * 1000
  | day => 24 * 60 * 60 * 1000
  end.

(** One value for each of the three granularities. *)
Record Triple (A : Type) := { of_minute : A; of_hour : A; of_day : A }.
Arguments of_minute {A}.
Arguments of_hour {A}.
Arguments of_day {A}.

(** ** What the handler exchanges with its collaborators *)

(** A call that returns or throws. *)
Inductive Result (A : Type) :=
| Ok (a : A)
| Throw (message : string).
Arguments Ok {A}.
Arguments Throw {A}.

(** leadSubmission.ts *)
Record LeadSubmissionResult := {
  success : bool;
  leadId : option string;
  lead_error : option string;
  lead_errorCode : option string;
  field : option string
}.

Record Response := {
  status : Z;
  (** in spread order: a later entry overrides an earlier one *)
  resp_headers : list (string * string);
  resp_body : option (gmap string JsValue)
}.

(** What [serve] hands back to the HTTP server. *)
Inductive Outcome :=
| Returned (r : Response)
| Uncaught (message : string).

(** Code that the handler imports and that is taken as given: the CORS
    header table and the lead submission, which works on the store with
    the tenant id and the parsed body and may throw. *)
Class Collaborators := {
  corsHeaders : list (string * string);
  submitLead : string -> positive -> M (Result LeadSubmissionResult)
}.

Section Gateway.
Context `{Runtime}.

(** [new Date(y, m, d, h, min, 0, 0)] and its two siblings: the local
    wall-clock fields below the granularity are zeroed.  With the local
    time at a constant offset from UTC this is the floor to a multiple of
    the window length in local time. *)
Definition floorTo (t : WindowType) (now : Z) : Z :=
  (now + tzOffsetMs) / windowMs t * windowMs t - tzOffsetMs.

Definition getWindowStart (t : WindowType) : M Z :=
  let* now := newDate in
  ret (floorTo t now).

Definition getWindowEnd (t : WindowType) : M Z :=
  let* start := getWindowStart t in
  ret (start + windowMs t).

Record RateLimitResult := {
  allowed : bool;
  remaining : Triple Z;
  reset : Triple string;
  retryAfter : option Z;
  errorCode : option string
}.

(** [Math.ceil(ms / 1000)] on an integer number of milliseconds *)
Definition ceilSeconds (ms : Z) : Z := - ((- ms) / 1000).

(** Seconds, rounded up, from the reading [now] to the end of the window
    of granularity [t] that contains the reading [at_]. *)
Definition secondsToWindowEnd (t : WindowType) (at_ now : Z) : Z :=
  ceilSeconds (floorTo t at_ + windowMs t - now).

Definition tracking_matches (ident identType : string) (r : TrackingRow) : bool :=
  String.eqb (identifier r) ident && String.eqb (identifier_type r) identType.

(** [.upsert(row, { onConflict: 'identifier,identifier_type' })] *)
Definition upsert_tracking (r : TrackingRow) : M unit :=
  fun w =>
    let d := db w in
    let rows := api_rate_limit_tracking d in
    let hit := tracking_matches (identifier r) (identifier_type r) in
    let rows' :=
      if existsb hit rows
      then map (fun x => if hit x then r else x) rows
      else rows ++ [r] in
    (tt, set_db {| api_keys := api_keys d;
                   api_rate_limit_config := api_rate_limit_config d;
                   api_rate_limit_tracking := rows';
                   api_request_logs := api_request_logs d |} w).

(** The local variables of one [checkRateLimit] call once the tracking row
    has been read (lines 282 to 321). *)
Record Observed := {
  o_identifier : string;
  o_config : RateLimitConfig;
  minuteWindow : Z;
  hourWindow : Z;
  dayWindow : Z;
  minuteCount : Z;
  hourCount : Z;
  dayCount : Z
}.

(** Lines 282 to 321: resolve the policy, compute the three window starts,
    read the tracking row and derive the effective counts. *)
Definition checkRateLimit_read (apiKeyId professionalId : string) : M Observed :=
  let* config := getRateLimitConfig apiKeyId professionalId in
  let ident := apiKeyId in
  let identType := "api_key" in
  let* mw := getWindowStart minute in
  let* hw := getWindowStart hour in
  let* dw := getWindowStart day in
  let* tracking :=
    select_single api_rate_limit_tracking (tracking_matches ident identType) in
  ret (match tracking with
       | Some t =>
         {| o_identifier := ident; o_config := config;
            minuteWindow := mw; hourWindow := hw; dayWindow := dw;
            minuteCount := if minute_window t <? mw then 0 else minute_count t;
            hourCount := if hour_window t <? hw then 0 else hour_count t;
            dayCount := if day_window t <? dw then 0 else day_count t |}
       | None =>
         {| o_identifier := ident; o_config := config;
            minuteWindow := mw; hourWindow := hw; dayWindow := dw;
            minuteCount := 0; hourCount := 0; dayCount := 0 |}
       end).

Definition minuteExceeded (o : Observed) : bool :=
  requests_per_minute (o_config o) <=? minuteCount o.
Definition hourExceeded (o : Observed) : bool :=
  requests_per_hour (o_config o) <=? hourCount o.
Definition dayExceeded (o : Observed) : bool :=
  requests_per_day (o_config o) <=? dayCount o.

Definition resetTimes : M (Triple string) :=
  let* m := getWindowEnd minute in
  let* h := getWindowEnd hour in
  let* d := getWindowEnd day in
  ret {| of_minute := toISOString m;
         of_hour := toISOString h;
         of_day := toISOString d |}.

(** Lines 323 to 394: compare with the ceilings, then either refuse or
    write the incremented counters back. *)
Definition checkRateLimit_decide (o : Observed) : M RateLimitResult :=
  let config := o_config o in
  if minuteExceeded o || hourExceeded o || dayExceeded o then
    let* retry :=
      let t := if dayExceeded o then day
               else if hourExceeded o then hour
               else minute in
      let* e := getWindowEnd t in
      let* now := newDate in
      ret (ceilSeconds (e - now)) in
    let* rs := resetTimes in
    ret {| allowed := false;
           remaining :=
             {| of_minute := Z.max 0 (requests_per_minute config - minuteCount o);
                of_hour := Z.max 0 (requests_per_hour config - hourCount o);
                of_day := Z.max 0 (requests_per_day config - dayCount o) |};
           reset := rs;
           retryAfter := Some retry;
           errorCode := Some "rate_limit_exceeded" |}
  else
    let newMinuteCount := minuteCount o + 1 in
    let newHourCount := hourCount o + 1 in
    let newDayCount := dayCount o + 1 in
    let* stamp := newDate in
    let* _ :=
      upsert_tracking
        {| identifier := o_identifier o;
           identifier_type := "api_key";
           minute_window := minuteWindow o;
           minute_count := newMinuteCount;
           hour_window := hourWindow o;
           hour_count := newHourCount;
           day_window := dayWindow o;
           day_count := newDayCount;
           last_request_at := stamp |} in
    let* rs := resetTimes in
    ret {| allowed := true;
           remaining :=
             {| of_minute := requests_per_minute config - newMinuteCount;
                of_hour := requests_per_hour config - newHourCount;
                of_day := requests_per_day config - newDayCount |};
           reset := rs;
           retryAfter := None;
           errorCode := None |}.

Definition checkRateLimit (apiKeyId professionalId : string) : M RateLimitResult :=
  let* o := checkRateLimit_read apiKeyId professionalId in
  checkRateLimit_decide o.

(** [String(n)] for an integer [n] *)
Definition String_of (n : Z) : string := pretty n.

Definition getRateLimitHeaders (result : RateLimitResult) : list (string * string) :=
  [ ("X-RateLimit-Limit-Minute", "60");
    ("X-RateLimit-Remaining-Minute", String_of (of_minute (remaining result)));
    ("X-RateLimit-Reset-Minute", of_minute (reset result));
    ("X-RateLimit-Limit-Hour", "1000");
    ("X-RateLimit-Remaining-Hour", String_of (of_hour (remaining result)));
    ("X-RateLimit-Reset-Hour", of_hour (reset result));
    ("X-RateLimit-Limit-Day", "10000");
    ("X-RateLimit-Remaining-Day", String_of (of_day (remaining result)));
    ("X-RateLimit-Reset-Day", of_day (reset result)) ].

(** *** Calls in flight

    One [checkRateLimit] call suspends at each [await]; between the read
    of the tracking row and the upsert another call may run. *)
Inductive Call :=
| CallStart (apiKeyId professionalId : string)
| CallObserved (o : Observed)
| CallDone (r : RateLimitResult).

Definition step_call (c : Call) : M Call :=
  match c with
  | CallStart a p => let* o := checkRateLimit_read a p in ret (CallObserved o)
  | CallObserved o => let* r := checkRateLimit_decide o in ret (CallDone r)
  | CallDone r => ret (CallDone r)
  end.

(** The scheduler resumes the call with index [i]. *)
Definition resume (i : nat) (s : list Call * World) : list Call * World :=
  match fst s !! i with
  | Some c => let (c', w') := step_call c (snd s) in (<[i:=c']> (fst s), w')
  | None => s
  end.

Definition run_schedule (sched : list nat) (s : list Call * World)
  : list Call * World :=
  fold_left (fun st i => resume i st) sched s.

Definition call_allowed (c : Call) : bool :=
  match c with
  | CallDone r => allowed r
  | _ => false
  end.




(** ** apiKeyAuth.ts *)

Record ApiKeyValidationResult := {
  isValid : bool;
  professionalId : option string;
  apiKeyId : option string;
  error : option string;
  keyErrorCode : option string
}.

Definition isAlnum (c : ascii) : bool :=
  let n := nat_of_ascii c in
  ((48 <=? n) && (n <=? 57) || (65 <=? n) && (n <=? 90)
   || (97 <=? n) && (n <=? 122))%nat.

Definition string_drop (n : nat) (s : string) : string :=
  String.substring n (String.length s - n) s.

(** [/^ofair_pk_[A-Za-z0-9]{32}$/] *)
Definition matchesKeyFormat (apiKey : string) : bool :=
  String.prefix "ofair_pk_" apiKey
  && (let rest := string_drop 9 apiKey in
      (String.length rest =? 32)%nat
      && forallb isAlnum (list_ascii_of_string rest)).

(** [.eq('key_hash', keyHash)] *)
Definition hasDigest (keyHash : string) (r : ApiKeyRow) : bool :=
  String.eqb (key_hash r) keyHash.

(** The rejections of the authenticator as the spec names them, and the
    error code that stands for each in the code. *)
Inductive AuthError :=
| MissingKey
| MalformedKey
| UnknownKey
| InactiveKey
| RevokedKey
| ExpiredKey.

Definition errorCodeOf (e : AuthError) : string :=
  match e with
  | MissingKey => "missing_api_key"
  | MalformedKey => "invalid_api_key_format"
  | UnknownKey => "invalid_api_key"
  | InactiveKey => "inactive_api_key"
  | RevokedKey => "revoked_api_key"
  | ExpiredKey => "expired_api_key"
  end.

Definition rejected (message code : string) : ApiKeyValidationResult :=
  {| isValid := false; professionalId := None; apiKeyId := None;
     error := Some message; keyErrorCode := Some code |}.

(** [supabase.from('api_keys').update(..).eq('id', id)] *)
Definition update_api_keys (id : string) (f : ApiKeyRow -> ApiKeyRow) : M unit :=
  fun w =>
    let d := db w in
    (tt, set_db {| api_keys :=
                     map (fun r => if String.eqb (key_id r) id then f r else r)
                         (api_keys d);
                   api_rate_limit_config := api_rate_limit_config d;
                   api_rate_limit_tracking := api_rate_limit_tracking d;
                   api_request_logs := api_request_logs d |} w).

Definition deactivate (r : ApiKeyRow) : ApiKeyRow :=
  {| key_id := key_id r; key_professional_id := key_professional_id r;
     key_hash := key_hash r; key_is_active := false;
     key_last_used_at := key_last_used_at r;
     key_expires_at := key_expires_at r;
     key_revoked_at := key_revoked_at r |}.

Definition touch (now : Z) (r : ApiKeyRow) : ApiKeyRow :=
  {| key_id := key_id r; key_professional_id := key_professional_id r;
     key_hash := key_hash r; key_is_active := key_is_active r;
     key_last_used_at := Some now;
     key_expires_at := key_expires_at r;
     key_revoked_at := key_revoked_at r |}.

(** Lines 106 to 116: stamp [last_used_at] and answer with the identity. *)
Definition acceptKey (data : ApiKeyRow) : M ApiKeyValidationResult :=
  let* now := newDate in
  let* _ := update_api_keys (key_id data) (touch now) in
  ret {| isValid := true;
         professionalId := Some (key_professional_id data);
         apiKeyId := Some (key_id data);
         error := None; keyErrorCode := None |}.

Definition validateApiKey (apiKey : string) : M ApiKeyValidationResult :=
  if String.eqb apiKey "" then
    ret (rejected "API key is required" "missing_api_key")
  else if negb (matchesKeyFormat apiKey) then
    ret (rejected "Invalid API key format" "invalid_api_key_format")
  else
    let keyHash := hashApiKey apiKey in
    let* found := select_single api_keys (hasDigest keyHash) in
    match found with
    | None => ret (rejected "Invalid API key" "invalid_api_key")
    | Some data =>
      if negb (key_is_active data) then
        ret (rejected "API key is inactive" "inactive_api_key")
      else if bool_decide (is_Some (key_revoked_at data)) then
        ret (rejected "API key has been revoked" "revoked_api_key")
      else
        match key_expires_at data with
        | Some expires =>
          let* now := newDate in
          if expires <? now then
            let* _ := update_api_keys (key_id data) deactivate in
            ret (rejected "API key has expired" "expired_api_key")
          else acceptKey data
        | None => acceptKey data
        end
    end.

(** ** requestLogger.ts, audit logging *)

(** ['*'.repeat(n)] *)
Fixpoint stars (n : nat) : string :=
  match n with
  | O => ""
  | S n' => String "*" (stars n')
  end.

Definition maskPhone (phone : string) : string :=
  let len := String.length phone in
  if (4 <? len)%nat
  then stars (len - 4) +:+ String.substring (len - 4) 4 phone
  else "****".

(** Reads and writes of the fields of a heap object. *)
Definition fieldsOf (l : positive) : M (gmap string JsValue) :=
  fun w => (default ∅ (heap w !! l), w).

Definition getField (l : positive) (k : string) : M (option JsValue) :=
  fun w => (default ∅ (heap w !! l) !! k, w).

Definition setField (l : positive) (k : string) (v : JsValue) : M unit :=
  fun w => (tt, set_heap (<[l := <[k := v]> (default ∅ (heap w !! l))]> (heap w)) w).

Definition deleteField (l : positive) (k : string) : M unit :=
  fun w => (tt, set_heap (<[l := delete k (default ∅ (heap w !! l))]> (heap w)) w).

(** A new object with the given fields, as [{ ...body }] and [req.json()]
    make one. *)
Definition allocate (fields : gmap string JsValue) : M positive :=
  fun w => let l := fresh (dom (heap w)) in
           (l, set_heap (<[l := fields]> (heap w)) w).

Definition sanitizeRequestBody (body : option positive) : M (option positive) :=
  match body with
  | None => ret None
  | Some b =>
    let* fields := fieldsOf b in
    let* sanitized := allocate fields in
    let* client_phone := getField sanitized "client_phone" in
    let* _ :=
      match client_phone with
      | Some (JsString phone) =>
        if String.eqb phone "" then ret tt
        else setField sanitized "client_phone" (JsString (maskPhone phone))
      | _ => ret tt
      end in
    let* _ := deleteField sanitized "password" in
    let* _ := deleteField sanitized "token" in
    let* _ := deleteField sanitized "api_key" in
    ret (Some sanitized)
  end.

(** What [sanitizeRequestBody] leaves in the copy, as a function of the
    fields of the body. *)
Definition sanitizedFields (fields : gmap string JsValue) : gmap string JsValue :=
  let masked :=
    match fields !! "client_phone" with
    | Some (JsString phone) =>
      if String.eqb phone "" then fields
      else <["client_phone" := JsString (maskPhone phone)]> fields
    | _ => fields
    end in
  delete "api_key" (delete "token" (delete "password" masked)).

Record Request := {
  method : string;
  headers : list (string * string);
  (** the body when it parses as JSON *)
  json : option (gmap string JsValue)
}.

Definition lower (c : ascii) : ascii :=
  let n := nat_of_ascii c in
  if ((65 <=? n) && (n <=? 90))%nat then ascii_of_nat (n + 32) else c.

Definition toLowerCase (s : string) : string :=
  string_of_list_ascii (map lower (list_ascii_of_string s)).

(** [req.headers.get(name)]: header names compare without case. *)
Definition headers_get (req : Request) (name : string) : option string :=
  option_map snd
    (find (fun h => String.eqb (toLowerCase (fst h)) (toLowerCase name))
          (headers req)).

(** [a || b] on strings that may be missing: the empty string is falsy. *)
Definition truthy (o : option string) : option string :=
  match o with
  | Some s => if String.eqb s "" then None else Some s
  | None => None
  end.

Definition orElse {A} (a b : option A) : option A :=
  match a with
  | Some _ => a
  | None => b
  end.

Definition extractApiKey (req : Request) : option string :=
  orElse (truthy (headers_get req "X-API-Key"))
         (truthy (headers_get req "x-api-key")).

Definition isSpace (c : ascii) : bool :=
  let n := nat_of_ascii c in
  ((9 <=? n) && (n <=? 13) || (n =? 32))%nat.

Fixpoint dropSpaces (l : list ascii) : list ascii :=
  match l with
  | c :: l' => if isSpace c then dropSpaces l' else l
  | [] => []
  end.

Definition trim (s : string) : string :=
  string_of_list_ascii
    (rev (dropSpaces (rev (dropSpaces (list_ascii_of_string s))))).

Fixpoint beforeComma (l : list ascii) : list ascii :=
  match l with
  | c :: l' => if Ascii.eqb c "," then [] else c :: beforeComma l'
  | [] => []
  end.

Definition extractClientIp (req : Request) : option string :=
  match truthy (headers_get req "x-forwarded-for") with
  | Some forwardedFor =>
    Some (trim (string_of_list_ascii (beforeComma (list_ascii_of_string forwardedFor))))
  | None =>
    orElse (truthy (headers_get req "x-real-ip"))
           (truthy (headers_get req "cf-connecting-ip"))
  end.

Record RequestContext := {
  requestId : string;
  startTime : Z;
  ctx_apiKeyId : option string;
  ctx_professionalId : option string;
  endpoint : string;
  ctx_method : string;
  requestBody : option positive;
  clientIp : option string
}.

Definition createRequestContext (req : Request) (endpoint : string)
  : M RequestContext :=
  let* id := randomUUID in
  let* now := newDate in
  ret {| requestId := id; startTime := now;
         ctx_apiKeyId := None; ctx_professionalId := None;
         endpoint := endpoint; ctx_method := method req;
         requestBody := None; clientIp := extractClientIp req |}.

(** The third argument of [finalizeRequest]. *)
Record FinalResponse := {
  fin_status : Z;
  fin_body : option (gmap string JsValue);
  fin_leadId : option string;
  fin_errorCode : option string;
  fin_errorMessage : option string
}.

(** [supabase.from('api_request_logs').insert(row)] *)
Definition logRequest (row : LogRow) : M unit :=
  fun w =>
    let d := db w in
    (tt, set_db {| api_keys := api_keys d;
                   api_rate_limit_config := api_rate_limit_config d;
                   api_rate_limit_tracking := api_rate_limit_tracking d;
                   api_request_logs := api_request_logs d ++ [row] |} w).

Definition finalizeRequest (context : RequestContext) (response : FinalResponse)
  : M unit :=
  let* now := newDate in
  let processingTimeMs := now - startTime context in
  let* sanitized := sanitizeRequestBody (requestBody context) in
  let* logged :=
    match sanitized with
    | Some l => let* fields := fieldsOf l in ret (Some fields)
    | None => ret None
    end in
  logRequest
    {| log_request_id := requestId context;
       log_api_key_id := ctx_apiKeyId context;
       log_professional_id := ctx_professionalId context;
       log_endpoint := endpoint context;
       log_method := ctx_method context;
       log_request_body := logged;
       log_client_ip := clientIp context;
       log_response_status := fin_status response;
       log_response_body := fin_body response;
       log_lead_id := truthy (fin_leadId response);
       log_error_code := truthy (fin_errorCode response);
       log_error_message := truthy (fin_errorMessage response);
       log_processing_time_ms := processingTimeMs |}.

(** ** submit-lead-api *)

Context `{Collaborators}.

(** [getSupabaseClient] of apiKeyAuth.ts; the client itself is the store
    of the world. *)
Definition getSupabaseClient : M (Result unit) :=
  fun w =>
    let supabaseUrl := default "" (env w "SUPABASE_URL") in
    let supabaseKey := default "" (env w "SUPABASE_SERVICE_ROLE_KEY") in
    if String.eqb supabaseUrl "" || String.eqb supabaseKey ""
    then (Throw "Server configuration error", w)
    else (Ok tt, w).

(** An object literal; a field whose value is [undefined] is left out, as
    [JSON.stringify] does. *)
Fixpoint literal (fields : list (string * option JsValue)) : gmap string JsValue :=
  match fields with
  | [] => ∅
  | (k, Some v) :: rest => <[k := v]> (literal rest)
  | (_, None) :: rest => literal rest
  end.

Definition str (s : string) : option JsValue := Some (JsString s).

Definition jsonHeaders (hs : list (string * string)) : list (string * string) :=
  hs ++ [("Content-Type", "application/json")].

(** The [try] block of the handler (lines 18 to 171).  It yields the
    response it returns, or what it threw, together with the context as it
    stands at that point. *)
Definition tryBlock (req : Request) (context : RequestContext)
  : M (Result Response * RequestContext) :=
  if negb (String.eqb (method req) "POST") then
    let response :=
      literal [("error", str "method_not_allowed");
               ("message", str "Only POST requests are allowed");
               ("request_id", str (requestId context))] in
    let* _ :=
      finalizeRequest context
        {| fin_status := 405; fin_body := Some response; fin_leadId := None;
           fin_errorCode := Some "method_not_allowed";
           fin_errorMessage := None |} in
    ret (Ok {| status := 405; resp_headers := jsonHeaders corsHeaders;
               resp_body := Some response |}, context)
  else
  match extractApiKey req with
  | None =>
    let response :=
      literal [("error", str "missing_api_key");
               ("message", str "X-API-Key header is required");
               ("request_id", str (requestId context))] in
    let* _ :=
      finalizeRequest context
        {| fin_status := 401; fin_body := Some response; fin_leadId := None;
           fin_errorCode := Some "missing_api_key";
           fin_errorMessage := None |} in
    ret (Ok {| status := 401; resp_headers := jsonHeaders corsHeaders;
               resp_body := Some response |}, context)
  | Some apiKey =>
  let* keyValidation := validateApiKey apiKey in
  if negb (isValid keyValidation) then
    let response :=
      literal [("error", option_map JsString (keyErrorCode keyValidation));
               ("message", option_map JsString (error keyValidation));
               ("request_id", str (requestId context))] in
    let* _ :=
      finalizeRequest context
        {| fin_status := 401; fin_body := Some response; fin_leadId := None;
           fin_errorCode := keyErrorCode keyValidation;
           fin_errorMessage := None |} in
    ret (Ok {| status := 401; resp_headers := jsonHeaders corsHeaders;
               resp_body := Some response |}, context)
  else
  let context :=
    {| requestId := requestId context; startTime := startTime context;
       ctx_apiKeyId := apiKeyId keyValidation;
       ctx_professionalId := professionalId keyValidation;
       endpoint := endpoint context; ctx_method := ctx_method context;
       requestBody := requestBody context; clientIp := clientIp context |} in
  let* rateLimitResult :=
    checkRateLimit (default "" (apiKeyId keyValidation))
                   (default "" (professionalId keyValidation)) in
  let rateLimitHeaders := getRateLimitHeaders rateLimitResult in
  if negb (allowed rateLimitResult) then
    let window (remaining : Z) (reset : string) :=
      JsObject [("remaining", JsNumber remaining);
                ("reset", JsString reset)] in
    let response :=
      literal
        [("error", str "rate_limit_exceeded");
         ("message",
          str "Rate limit exceeded. Please wait before making more requests.");
         ("retry_after", option_map JsNumber (retryAfter rateLimitResult));
         ("limits",
          Some (JsObject
            [("minute", window (of_minute (remaining rateLimitResult))
                               (of_minute (reset rateLimitResult)));
             ("hour", window (of_hour (remaining rateLimitResult))
                             (of_hour (reset rateLimitResult)));
             ("day", window (of_day (remaining rateLimitResult))
                            (of_day (reset rateLimitResult)))]));
         ("request_id", str (requestId context))] in
    let* _ :=
      finalizeRequest context
        {| fin_status := 429; fin_body := Some response; fin_leadId := None;
           fin_errorCode := Some "rate_limit_exceeded";
           fin_errorMessage := None |} in
    ret (Ok {| status := 429;
               resp_headers :=
                 corsHeaders ++ rateLimitHeaders
                 ++ [("Content-Type", "application/json");
                     ("Retry-After",
                      match retryAfter rateLimitResult with
                      | Some n => String_of n
                      | None => "undefined"
                      end)];
               resp_body := Some response |}, context)
  else
  match json req with
  | None =>
    let response :=
      literal [("error", str "invalid_json");
               ("message", str "Request body must be valid JSON");
               ("request_id", str (requestId context))] in
    let* _ :=
      finalizeRequest context
        {| fin_status := 400; fin_body := Some response; fin_leadId := None;
           fin_errorCode := Some "invalid_json";
           fin_errorMessage := None |} in
    ret (Ok {| status := 400;
               resp_headers := jsonHeaders (corsHeaders ++ rateLimitHeaders);
               resp_body := Some response |}, context)
  | Some parsed =>
  let* requestBody := allocate parsed in
  let context :=
    {| requestId := requestId context; startTime := startTime context;
       ctx_apiKeyId := ctx_apiKeyId context;
       ctx_professionalId := ctx_professionalId context;
       endpoint := endpoint context; ctx_method := ctx_method context;
       requestBody := Some requestBody; clientIp := clientIp context |} in
  let* submitted :=
    submitLead (default "" (professionalId keyValidation)) requestBody in
  match submitted with
  | Throw message => ret (Throw message, context)
  | Ok result =>
  if negb (success result) then
    let response :=
      literal [("error", option_map JsString (lead_errorCode result));
               ("message", option_map JsString (lead_error result));
               ("field", option_map JsString (field result));
               ("request_id", str (requestId context))] in
    let* _ :=
      finalizeRequest context
        {| fin_status := 400; fin_body := Some response; fin_leadId := None;
           fin_errorCode := lead_errorCode result;
           fin_errorMessage := None |} in
    ret (Ok {| status := 400;
               resp_headers := jsonHeaders (corsHeaders ++ rateLimitHeaders);
               resp_body := Some response |}, context)
  else
    let response :=
      literal [("success", Some (JsBool true));
               ("lead_id", option_map JsString (leadId result));
               ("request_id", str (requestId context))] in
    let* _ :=
      finalizeRequest context
        {| fin_status := 201; fin_body := Some response;
           fin_leadId := leadId result;
           fin_errorCode := None; fin_errorMessage := None |} in
    ret (Ok {| status := 201;
               resp_headers := jsonHeaders (corsHeaders ++ rateLimitHeaders);
               resp_body := Some response |}, context)
  end
  end
  end.

(** Lines 15 to 190: the context, the [try] block and the [catch] that
    wraps it.  A thrown [Error] is kept as its message. *)
Definition attempt (req : Request) : M Outcome :=
  let* context := createRequestContext req "/submit-lead-api" in
  let* tried := tryBlock req context in
  match tried with
  | (Ok response, _) => ret (Returned response)
  | (Throw message, context) =>
    let response :=
      literal [("error", str "internal_error");
               ("message", str "An unexpected error occurred");
               ("request_id", str (requestId context))] in
    let* _ :=
      finalizeRequest context
        {| fin_status := 500; fin_body := Some response; fin_leadId := None;
           fin_errorCode := Some "internal_error";
           fin_errorMessage := Some message |} in
    ret (Returned {| status := 500; resp_headers := jsonHeaders corsHeaders;
                     resp_body := Some response |})
  end.

(** The handler given to [serve] (lines 8 to 191). *)
Definition serve (req : Request) : M Outcome :=
  if String.eqb (method req) "OPTIONS" then
    ret (Returned {| status := 200; resp_headers := corsHeaders;
                     resp_body := None |})
  else
  let* client := getSupabaseClient in
  match client with
  | Throw message => ret (Uncaught message)
  | Ok _ => attempt req
  end.

End Gateway.

(** ** Concrete hosts and stores for the examples *)

(** [header name hs]: the value a header table gives for [name]. *)
Definition header (name : string) (hs : list (string * string)) : option string :=
  option_map snd (find (fun h => String.eqb (fst h) name) (rev hs)).

Definition utcRuntime : Runtime :=
  {| hashApiKey := fun s => "sha256:" +:+ s;
     toISOString := fun t => pretty t;
     tzOffsetMs := 0 |}.

Definition emptyDatabase : Database :=
  {| api_keys := []; api_rate_limit_config := [];
     api_rate_limit_tracking := []; api_request_logs := [] |}.

(** A world whose clock gives the readings of [readings] and then stays at
    [last]. *)
Definition worldOf (d : Database) (readings : list Z) (last : Z) : World :=
  {| db := d; heap := ∅;
     clock := fun i => nth i readings last; ticks := 0%nat;
     uuids := fun i => "req-" +:+ pretty i; uuid_next := 0%nat;
     env := fun k => Some "configured" |}.

Definition globalPolicy (perMinute perHour perDay : Z) : ConfigRow :=
  {| cfg_scope := "global"; cfg_scope_id := None;
     cfg_limits := {| requests_per_minute := perMinute;
                      requests_per_hour := perHour;
                      requests_per_day := perDay |};
     cfg_is_active := true |}.

(** A store with one counter row for the credential [k1], all three
    windows starting at the epoch. *)
Definition counted (policies : list ConfigRow) (perMinute perHour perDay : Z)
  : Database :=
  {| api_keys := [];
     api_rate_limit_config := policies;
     api_rate_limit_tracking :=
       [ {| identifier := "k1"; identifier_type := "api_key";
            minute_window := 0; minute_count := perMinute;
            hour_window := 0; hour_count := perHour;
            day_window := 0; day_count := perDay;
            last_request_at := 0 |} ];
     api_request_logs := [] |}.

(** The daily ceiling of the default policy is used up, one second into
    the first day. *)
Definition dayBlockedWorld : World := worldOf (counted [] 3 7 10000) [] 1000.

(** The clock crosses from 00:59:59.999 to 01:00:00.000 between the first
    and the second reading. *)
Definition hourTurnWorld : World :=
  worldOf emptyDatabase [3599999; 3600000; 3600000] 3600000.

(** A policy of one request per minute and a clock that stands still. *)
Definition oneSlotWorld : World :=
  worldOf {| api_keys := [];
             api_rate_limit_config := [globalPolicy 1 1000 10000];
             api_rate_limit_tracking := [];
             api_request_logs := [] |} [] 0.


Definition scopeKey (r : ConfigRow) : string * option string :=
  (cfg_scope r, cfg_scope_id r).


(** A policy of five per minute for the credential [k1] next to the
    global one. *)
Definition twoPolicies : list ConfigRow :=
  [ {| cfg_scope := "api_key"; cfg_scope_id := Some "k1";
       cfg_limits := {| requests_per_minute := 5;
                        requests_per_hour := 50;
                        requests_per_day := 500 |};
       cfg_is_active := true |};
    globalPolicy 60 1000 10000 ].

Definition twoPoliciesWorld : World :=
  worldOf {| api_keys := []; api_rate_limit_config := twoPolicies;
             api_rate_limit_tracking := []; api_request_logs := [] |} [] 0.

(** A well-formed key, and a store that holds it as an active credential
    which expired at 500 ms; the clock stands at 1000 ms. *)
Definition sampleKey : string := "ofair_pk_ABCDEFGHIJKLMNOPQRSTUVWXYZabcdef".

Definition expiredCredential : ApiKeyRow :=
  {| key_id := "k1"; key_professional_id := "p1";
     key_hash := "sha256:ofair_pk_ABCDEFGHIJKLMNOPQRSTUVWXYZabcdef";
     key_is_active := true; key_last_used_at := None;
     key_expires_at := Some 500; key_revoked_at := None |}.

Definition expiredKeyWorld : World :=
  worldOf {| api_keys := [expiredCredential]; api_rate_limit_config := [];
             api_rate_limit_tracking := []; api_request_logs := [] |} [] 1000.

(** A body whose [client_phone] is three characters long and which
    carries a phone number under another name. *)
Definition shortPhoneBody : gmap string JsValue :=
  <["client_phone" := JsString "123"]>
    (<["contact_phone" := JsString "0501234567"]>
       (<["token" := JsString "secret"]> ∅)).

Definition shortPhoneWorld : World :=
  set_heap (<[1%positive := shortPhoneBody]> ∅) (worldOf emptyDatabase [] 0).



(** The audit rows of a world, and what a computation adds to them: [m]
    appends some rows to the audit log, and [Q] holds of its answer and of
    the rows it appended. *)
Definition logs (w : World) : list LogRow := api_request_logs (db w).

Definition emits {A} (m : M A) (Q : A -> list LogRow -> Prop) : Prop :=
  forall w, exists rows,
    logs (snd (m w)) = logs w ++ rows /\ Q (fst (m w)) rows.

(** A computation that writes no audit row. *)
Definition silent {A} (m : M A) : Prop := emits m (fun _ rows => rows = []).

(** Collaborators for the examples: the lead submission accepts every
    body. *)
Definition acceptingCollaborators : Collaborators :=
  {| corsHeaders := [("Access-Control-Allow-Origin", "*")];
     submitLead := fun _ _ =>
       ret (Ok {| success := true; leadId := Some "lead-1";
                  lead_error := None; lead_errorCode := None;
                  field := None |}) |}.

Definition preflight : Request :=
  {| method := "OPTIONS"; headers := []; json := None |}.

Definition postWithoutKey : Request :=
  {| method := "POST"; headers := []; json := None |}.

(** What the [try] block has written when it is left: one row with the
    status of the response when it returns one, nothing when it throws. *)
Definition leftTry (res : Result Response * RequestContext) (rows : list LogRow)
  : Prop :=
  match fst res with
  | Ok response =>
    exists row, rows = [row]
                /\ log_response_status row = status response
                /\ status response <> 500
  | Throw _ => rows = []
  end.

(** A host without its environment variables. *)
Definition unconfiguredWorld : World :=
  {| db := emptyDatabase; heap := ∅; clock := fun _ => 0; ticks := 0%nat;
     uuids := fun i => "req-" +:+ pretty i; uuid_next := 0%nat;
     env := fun _ => None |}.

(** Two calls for the credential [k1], not yet started. *)
Definition twoCalls : list Call := [CallStart "k1" "p1"; CallStart "k1" "p1"].

(** The key of the unique constraint of [api_rate_limit_tracking]. *)
Definition trackingKey (r : TrackingRow) : string * string :=
  (identifier r, identifier_type r).

(** The row that an admitted call upserts (lines 364 to 373). *)
Definition upsertedRow (o : Observed) (stamp : Z) : TrackingRow :=
  {| identifier := o_identifier o;
     identifier_type := "api_key";
     minute_window := minuteWindow o;
     minute_count := minuteCount o + 1;
     hour_window := hourWindow o;
     hour_count := hourCount o + 1;
     day_window := dayWindow o;
     day_count := dayCount o + 1;
     last_request_at := stamp |}.

(** The minute ceiling of the default policy is used up in the first
    minute, and the clock stands in the second. *)
Definition nextMinuteWorld : World := worldOf (counted [] 60 60 60) [] 61000.

(** What a credential is, apart from when it was last used. *)
Definition lifecycle (r : ApiKeyRow)
  : string * string * string * bool * option Z * option Z :=
  (key_id r, key_professional_id r, key_hash r, key_is_active r,
   key_expires_at r, key_revoked_at r).

(** [generateApiKey] of apiKeyAuth.ts, lines 136 to 142: the key made of
    the bytes that [crypto.getRandomValues] gave. *)
Definition charset : string :=
  "ABCDEFGHIJKLMNOPQRSTUVWXYZabcdefghijklmnopqrstuvwxyz0123456789".

Definition randomPart (bytes : list nat) : string :=
  String.concat ""
    (map (fun byte =>
            match String.get (byte mod String.length charset) charset with
            | Some c => String c ""
            | None => ""
            end) bytes).

Definition fullKey (bytes : list nat) : string := "ofair_pk_" +:+ randomPart bytes.

(** A store that holds [sampleKey] as an active credential without expiry. *)
Definition liveCredential : ApiKeyRow :=
  {| key_id := "k1"; key_professional_id := "p1";
     key_hash := "sha256:ofair_pk_ABCDEFGHIJKLMNOPQRSTUVWXYZabcdef";
     key_is_active := true; key_last_used_at := None;
     key_expires_at := None; key_revoked_at := None |}.

Definition liveKeyWorld : World :=
  worldOf {| api_keys := [liveCredential]; api_rate_limit_config := [];
             api_rate_limit_tracking := []; api_request_logs := [] |} [] 1000.

(** ** revoke-api-key *)

(** [auth_tokens], a table of the main application that the key
    management functions read. *)
Record AuthTokenRow := {
  tok_token : string;
  tok_professional_id : string;
  tok_expires_at : Z;
  tok_is_active : bool
}.

(** [s.replace(pattern, '')] with a string pattern: the first occurrence
    is cut out. *)
Definition removeFirst (pattern s : string) : string :=
  match String.index 0 pattern s with
  | Some n =>
    String.substring 0 n s
    +:+ string_drop (n + String.length pattern) s
  | None => s
  end.

(** [String(v)], as a template string and a query filter render a value. *)
Fixpoint jsToString (v : JsValue) : string :=
  match v with
  | JsNull => "null"
  | JsBool true => "true"
  | JsBool false => "false"
  | JsNumber n => String_of n
  | JsString s => s
  | JsArray items =>
    String.concat ","
      (map (fun x => match x with
                     | JsNull => ""
                     | _ => jsToString x
                     end) items)
  | JsObject _ => "[object Object]"
  end.

(** [!v] for a field that may be absent. *)
Definition falsy (v : option JsValue) : bool :=
  match v with
  | None => true
  | Some JsNull => true
  | Some (JsBool b) => negb b
  | Some (JsNumber n) => n =? 0
  | Some (JsString s) => String.eqb s ""
  | Some (JsArray _) => false
  | Some (JsObject _) => false
  end.

Definition revoke (now : Z) (r : ApiKeyRow) : ApiKeyRow :=
  {| key_id := key_id r; key_professional_id := key_professional_id r;
     key_hash := key_hash r; key_is_active := false;
     key_last_used_at := key_last_used_at r;
     key_expires_at := key_expires_at r;
     key_revoked_at := Some now |}.

(** What the handler reads off a request: the token it presents and the
    key id it names. *)
Definition presentedToken (req : Request) : option string :=
  truthy (option_map (removeFirst "Bearer ") (headers_get req "Authorization")).

Definition namedKeyId (req : Request) : option string :=
  match json req with
  | Some body =>
    if falsy (body !! "key_id") then None
    else Some (jsToString (default JsNull (body !! "key_id")))
  | None => None
  end.

Section KeyManagement.
Context `{Collaborators}.

Definition errorResponse (code : Z) (message : string) : Response :=
  {| status := code; resp_headers := jsonHeaders corsHeaders;
     resp_body := Some (literal [("error", str message)]) |}.

(** revoke-api-key, lines 24 to 131: the handler once the client is made. *)
Definition revokeApiKey (tokens : list AuthTokenRow) (req : Request) : M Response :=
  let token := option_map (removeFirst "Bearer ") (headers_get req "Authorization") in
  match truthy token with
  | None => ret (errorResponse 401 "Authorization token required")
  | Some token =>
  match single (List.filter
                  (fun t => String.eqb (tok_token t) token && tok_is_active t)
                  tokens) with
  | None => ret (errorResponse 401 "Invalid or expired token")
  | Some tokenData =>
  let* now := newDate in
  if tok_expires_at tokenData <? now then
    ret (errorResponse 401 "Token has expired")
  else
  let professionalId := tok_professional_id tokenData in
  match json req with
  | None => ret (errorResponse 400 "Invalid request body. key_id is required.")
  | Some body =>
  let keyId := body !! "key_id" in
  if falsy keyId then ret (errorResponse 400 "key_id is required")
  else
  let keyId := jsToString (default JsNull keyId) in
  let* keyData := select_single api_keys (fun r => String.eqb (key_id r) keyId) in
  match keyData with
  | None => ret (errorResponse 404 "API key not found")
  | Some keyData =>
  if negb (String.eqb (key_professional_id keyData) professionalId) then
    ret (errorResponse 403 "You do not have permission to revoke this API key")
  else if negb (key_is_active keyData) then
    ret (errorResponse 400 "API key is already inactive")
  else
  let* stamp := newDate in
  let* _ := update_api_keys keyId (revoke stamp) in
  ret {| status := 200; resp_headers := jsonHeaders corsHeaders;
         resp_body :=
           Some (literal [("success", Some (JsBool true));
                          ("message", str "API key revoked successfully")]) |}
  end
  end
  end
  end.

End KeyManagement.

(** A token of the tenant [p1], and a request that presents it and names
    the credential [k1]. *)
Definition sampleTokens : list AuthTokenRow :=
  [ {| tok_token := "t1"; tok_professional_id := "p1";
       tok_expires_at := 5000; tok_is_active := true |} ].

Definition revokeRequest : Request :=
  {| method := "POST"; headers := [("Authorization", "Bearer t1")];
     json := Some (<["key_id" := JsString "k1"]> ∅) |}.

(** What the audit row [row] and the response [response] of one call
    have to do with each other; [id] is the request id of the call. *)
Definition audited (id : string) (response : Response) (row : LogRow) : Prop :=
  log_response_status row = status response
  /\ log_request_id row = id
  /\ (exists body, resp_body response = Some body
                   /\ body !! "request_id" = Some (JsString id))
  /\ (log_request_body row = None
      \/ exists fields, log_request_body row = Some (sanitizedFields fields))
  /\ (status response = 401 \/ status response = 405 \/ status response = 429 ->
      log_request_body row = None)
  /\ (status response = 429 ->
      exists retry body,
        header "Retry-After" (resp_headers response) = Some (String_of retry)
        /\ resp_body response = Some body
        /\ body !! "retry_after" = Some (JsNumber retry)).

(** What the [try] block has written when it is left, in full. *)
Definition leftTryAudited (id : string)
    (res : Result Response * RequestContext) (rows : list LogRow) : Prop :=
  match fst res with
  | Ok response =>
    exists row, rows = [row] /\ audited id response row
                /\ status response <> 500
  | Throw _ => rows = [] /\ requestId (snd res) = id
  end.

(** The counter rows of a world. *)
Definition tracking (w : World) : list TrackingRow := api_rate_limit_tracking (db w).

(** The statuses with which the handler turns a request down before any
    of it is handed on. *)
Definition turnedDown (response : Response) : Prop :=
  status response = 401 \/ status response = 405 \/ status response = 429.

(** A lead submission that always throws. *)
Definition failingCollaborators : Collaborators :=
  {| corsHeaders := [("Access-Control-Allow-Origin", "*")];
     submitLead := fun _ _ => ret (Throw "lead store unreachable") |}.

(** A request with the key of the live credential and a body that
    carries a token. *)
Definition leadRequest : Request :=
  {| method := "POST";
     headers := [("x-api-key", "ofair_pk_ABCDEFGHIJKLMNOPQRSTUVWXYZabcdef")];
     json := Some shortPhoneBody |}.

(** The live credential with its daily ceiling used up. *)
Definition blockedKeyWorld : World :=
  worldOf {| api_keys := [liveCredential]; api_rate_limit_config := [];
             api_rate_limit_tracking :=
               api_rate_limit_tracking (counted [] 3 7 10000);
             api_request_logs := [] |} [] 1000.

(** ** leadSubmission.ts, the phone format *)

(** [\d] *)
Definition isDigit (c : ascii) : bool :=
  let n := nat_of_ascii c in ((48 <=? n) && (n <=? 57))%nat.

(** [\d{7}$] *)
Definition sevenDigits (l : list ascii) : bool :=
  (length l =? 7)%nat && forallb isDigit l.

(** [-?\d{7}$] *)
Definition hyphenSevenDigits (l : list ascii) : bool :=
  match l with
  | c :: rest => Ascii.eqb c "-" && sevenDigits rest
  | [] => false
  end
  || sevenDigits l.

(** [ISRAELI_PHONE_REGEX] of leadSubmission.ts on a string:
    [/^0\d{1,2}-?\d{7}$|^0\d{9}$/] *)
Definition ISRAELI_PHONE_REGEX (s : string) : bool :=
  match list_ascii_of_string s with
  | zero :: rest =>
    Ascii.eqb zero "0"
    && (match rest with
        | d1 :: rest1 =>
          isDigit d1
          && (hyphenSevenDigits rest1
              || match rest1 with
                 | d2 :: rest2 => isDigit d2 && hyphenSevenDigits rest2
                 | [] => false
                 end)
        | [] => false
        end
        || (length rest =? 9)%nat && forallb isDigit rest)
  | [] => false
  end.

(** [ISRAELI_PHONE_REGEX.test(v)]: [RegExp.prototype.test] turns its
    argument into a string before it matches, whatever its type. *)
Definition ISRAELI_PHONE_REGEX_test (v : JsValue) : bool :=
  ISRAELI_PHONE_REGEX (jsToString v).

(** The phone check of [validateLeadRequest], line 60, passed:
    [!data.client_phone || !ISRAELI_PHONE_REGEX.test(data.client_phone)]
    is false. *)
Definition clientPhoneAccepted (data : gmap string JsValue) : bool :=
  negb (falsy (data !! "client_phone")
        || negb (ISRAELI_PHONE_REGEX_test
                   (default JsNull (data !! "client_phone")))).

(** ** Windows of the local time, said without the code *)

Section WindowEnds.
Context `{Runtime}.

(** Two instants lie in the same window of granularity [t] of the local
    time. *)
Definition sameWindow (t : WindowType) (x y : Z) : Prop :=
  (x + tzOffsetMs) / windowMs t = (y + tzOffsetMs) / windowMs t.

(** [retry] is the number of seconds, rounded up, from [now] to the end of
    the window of granularity [t] that [now] lies in: the first boundary
    of the local time after [now]. *)
Definition secondsUntilEndOfWindow (t : WindowType) (now retry : Z) : Prop :=
  exists windowEnd,
    (windowEnd + tzOffsetMs) mod windowMs t = 0
    /\ now < windowEnd <= now + windowMs t
    /\ 1000 * (retry - 1) < windowEnd - now <= 1000 * retry.
End WindowEnds.

(** A key with its minute ceiling used up, and a clock that passes the end
    of the minute between the reading of [getWindowEnd] (59.999 s) and the
    reading of [Date.now()] (60.001 s). *)
Definition minuteTurnWorld : World :=
  worldOf (counted [] 60 60 60) [1000; 1000; 1000; 59999; 60001] 60001.

(** The same key on a host that stalls for 65 seconds between the two
    readings. *)
Definition minutePassedWorld : World :=
  worldOf (counted [] 60 60 60) [1000; 1000; 1000; 59999; 125000] 125000.

(** The alphabet of the key format, [A-Za-z0-9], written out. *)
Definition alphanumerics : list ascii :=
  list_ascii_of_string
    "ABCDEFGHIJKLMNOPQRSTUVWXYZabcdefghijklmnopqrstuvwxyz0123456789".

(** * Properties *)

(** ** The rate limiter *)

Section RateLimiterFacts.
Context `{Runtime}.

Lemma getRateLimitConfig_world a p w :
  snd (getRateLimitConfig a p w) = w.
Proof.
  unfold getRateLimitConfig, bind, select_single, ret; simpl.
  repeat (match goal with
          | |- context [match ?x with _ => _ end] => destruct x
          end; simpl); reflexivity.
Qed.

Lemma checkRateLimit_read_world a p w :
  snd (checkRateLimit_read a p w) = advance 3 w.
Proof.
  unfold checkRateLimit_read, bind.
  pose proof (getRateLimitConfig_world a p w) as E.
  destruct (getRateLimitConfig a p w) as [cfg w1]; simpl in E; subst w1.
  reflexivity.
Qed.

Lemma checkRateLimit_read_windows a p w :
  let o := fst (checkRateLimit_read a p w) in
  minuteWindow o = floorTo minute (clock w (ticks w))
  /\ hourWindow o = floorTo hour (clock w (S (ticks w)))
  /\ dayWindow o = floorTo day (clock w (S (S (ticks w)))).
Proof.
  unfold checkRateLimit_read, bind.
  pose proof (getRateLimitConfig_world a p w) as E.
  destruct (getRateLimitConfig a p w) as [cfg w1]; simpl in E; subst w1.
  simpl.
  destruct (single _); simpl; auto.
Qed.

Lemma checkRateLimit_unfold a p w :
  checkRateLimit a p w =
  checkRateLimit_decide (fst (checkRateLimit_read a p w)) (advance 3 w).
Proof.
  unfold checkRateLimit, bind.
  pose proof (checkRateLimit_read_world a p w) as E.
  destruct (checkRateLimit_read a p w) as [o w1]; simpl in *. by subst.
Qed.

(** The refusing branch, as a whole: what it answers and what it leaves
    behind. *)
Lemma decide_denied o w :
  minuteExceeded o || hourExceeded o || dayExceeded o = true ->
  let g := if dayExceeded o then day
           else if hourExceeded o then hour else minute in
  let r := fst (checkRateLimit_decide o w) in
  allowed r = false
  /\ retryAfter r
     = Some (secondsToWindowEnd g (clock w (ticks w)) (clock w (S (ticks w))))
  /\ remaining r =
       {| of_minute := Z.max 0 (requests_per_minute (o_config o) - minuteCount o);
          of_hour := Z.max 0 (requests_per_hour (o_config o) - hourCount o);
          of_day := Z.max 0 (requests_per_day (o_config o) - dayCount o) |}
  /\ snd (checkRateLimit_decide o w) = advance 5 w.
Proof.
  intros E. unfold checkRateLimit_decide. rewrite E.
  destruct (dayExceeded o), (hourExceeded o); simpl; repeat split; reflexivity.
Qed.

(** The distance to the end of the window of the first reading, measured
    from a second reading in the same window, is the distance to the end
    of the window the second reading lies in, and lies between one second
    and the length of the window. *)
Lemma seconds_to_end_of_same_window (t : WindowType) (at_ now : Z) :
  sameWindow t at_ now ->
  secondsUntilEndOfWindow t now (secondsToWindowEnd t at_ now)
  /\ 1 <= secondsToWindowEnd t at_ now <= windowMs t / 1000.
Proof.
  unfold sameWindow, secondsUntilEndOfWindow, secondsToWindowEnd, floorTo.
  intros E. rewrite E.
  assert (Hs : 0 < windowMs t) by (destruct t; simpl; lia).
  pose proof (Z.mul_div_le (now + tzOffsetMs) (windowMs t) Hs) as Lo.
  pose proof (Z.mul_succ_div_gt (now + tzOffsetMs) (windowMs t) Hs) as Hi.
  set (q := (now + tzOffsetMs) / windowMs t) in *.
  set (e := q * windowMs t - tzOffsetMs + windowMs t).
  assert (B : 0 < e - now <= windowMs t) by (unfold e; lia).
  assert (C : 1000 * (ceilSeconds (e - now) - 1) < e - now
              <= 1000 * ceilSeconds (e - now)).
  { unfold ceilSeconds.
    pose proof (Z.mul_div_le (- (e - now)) 1000 ltac:(lia)).
    pose proof (Z.mul_succ_div_gt (- (e - now)) 1000 ltac:(lia)).
    lia. }
  split.
  - exists e. split; [|split; [lia|exact C]].
    unfold e. replace (q * windowMs t - tzOffsetMs + windowMs t + tzOffsetMs)
      with ((q + 1) * windowMs t) by lia.
    apply Z.mod_mul. lia.
  - assert (D : windowMs t = windowMs t / 1000 * 1000)
      by (destruct t; reflexivity).
    lia.
Qed.

(** The retry-after of a refused call, by the granularity it is taken
    from. *)
Lemma retryAfter_of_granularity a p w (g : WindowType) :
  let o := fst (checkRateLimit_read a p w) in
  minuteExceeded o || hourExceeded o || dayExceeded o = true ->
  (if dayExceeded o then day else if hourExceeded o then hour else minute) = g ->
  let r := fst (checkRateLimit a p w) in
  let at_ := clock w (3 + ticks w)%nat in
  let now := clock w (4 + ticks w)%nat in
  retryAfter r = Some (secondsToWindowEnd g at_ now)
  /\ (sameWindow g at_ now ->
      exists retry, retryAfter r = Some retry
                    /\ secondsUntilEndOfWindow g now retry
                    /\ 1 <= retry <= windowMs g / 1000).
Proof.
  intros o Hex Hg r at_ now. subst r. rewrite checkRateLimit_unfold. fold o.
  destruct (decide_denied o (advance 3 w) Hex) as (_ & R & _).
  rewrite Hg in R.
  split; [exact R|]. intros S.
  destruct (seconds_to_end_of_same_window g at_ now S) as [U B].
  eexists. split; [exact R|]. split; [exact U|exact B].
Qed.

(** C2, as the code has it.  When a ceiling is met, the retry-after is
    taken from the most restrictive exceeded granularity: from the day
    when the day ceiling is met, whatever the other two counters say; else
    from the hour when the hour ceiling is met; else from the minute.  It
    is the distance, in seconds rounded up, from the reading of
    [Date.now()] to the end of the window that holds the reading
    [getWindowEnd] took just before.  When both readings lie in the same
    window of that granularity, it is the number of seconds from now to
    the end of the current window, the first boundary of the local time
    after now, and lies between one second and the length of the
    window. *)
Theorem retry_after_until_window_end a p w :
  let o := fst (checkRateLimit_read a p w) in
  let r := fst (checkRateLimit a p w) in
  let at_ := clock w (3 + ticks w)%nat in
  let now := clock w (4 + ticks w)%nat in
  (requests_per_day (o_config o) <= dayCount o ->
   retryAfter r = Some (secondsToWindowEnd day at_ now)
   /\ (sameWindow day at_ now ->
       exists retry, retryAfter r = Some retry
                     /\ secondsUntilEndOfWindow day now retry
                     /\ 1 <= retry <= 86400))
  /\ (dayCount o < requests_per_day (o_config o) ->
      requests_per_hour (o_config o) <= hourCount o ->
      retryAfter r = Some (secondsToWindowEnd hour at_ now)
      /\ (sameWindow hour at_ now ->
          exists retry, retryAfter r = Some retry
                        /\ secondsUntilEndOfWindow hour now retry
                        /\ 1 <= retry <= 3600))
  /\ (dayCount o < requests_per_day (o_config o) ->
      hourCount o < requests_per_hour (o_config o) ->
      requests_per_minute (o_config o) <= minuteCount o ->
      retryAfter r = Some (secondsToWindowEnd minute at_ now)
      /\ (sameWindow minute at_ now ->
          exists retry, retryAfter r = Some retry
                        /\ secondsUntilEndOfWindow minute now retry
                        /\ 1 <= retry <= 60)).
Proof.
  intros o r at_ now. split; [|split].
  - intros Hd. apply Z.leb_le in Hd.
    apply (retryAfter_of_granularity a p w day); fold o;
      unfold dayExceeded; rewrite Hd; [by rewrite !orb_true_r|reflexivity].
  - intros Hd Hh. apply Z.leb_gt in Hd. apply Z.leb_le in Hh.
    apply (retryAfter_of_granularity a p w hour); fold o;
      unfold dayExceeded, hourExceeded; rewrite Hd, Hh;
      [by rewrite !orb_true_r|reflexivity].
  - intros Hd Hh Hm. apply Z.leb_gt in Hd, Hh. apply Z.leb_le in Hm.
    apply (retryAfter_of_granularity a p w minute); fold o;
      unfold dayExceeded, hourExceeded; rewrite Hd, Hh;
      [unfold minuteExceeded; by rewrite Hm|reflexivity].
Qed.

(** C3. A call that finds one of the effective counts at or above its
    ceiling is refused, leaves the store as it found it (no counter is
    incremented, the tracking row is untouched), and reports for each
    granularity the ceiling minus the count, or zero when that is
    negative. *)
Theorem denied_leaves_counters a p w :
  let o := fst (checkRateLimit_read a p w) in
  let r := fst (checkRateLimit a p w) in
  requests_per_minute (o_config o) <= minuteCount o
  \/ requests_per_hour (o_config o) <= hourCount o
  \/ requests_per_day (o_config o) <= dayCount o ->
  allowed r = false
  /\ db (snd (checkRateLimit a p w)) = db w
  /\ of_minute (remaining r)
     = Z.max 0 (requests_per_minute (o_config o) - minuteCount o)
  /\ of_hour (remaining r)
     = Z.max 0 (requests_per_hour (o_config o) - hourCount o)
  /\ of_day (remaining r)
     = Z.max 0 (requests_per_day (o_config o) - dayCount o)
  /\ 0 <= of_minute (remaining r)
  /\ 0 <= of_hour (remaining r)
  /\ 0 <= of_day (remaining r).
Proof.
  intros o r Hex. subst r. rewrite checkRateLimit_unfold. fold o.
  destruct (decide_denied o (advance 3 w)) as (A & _ & R & W).
  { unfold minuteExceeded, hourExceeded, dayExceeded.
    destruct Hex as [E|[E|E]]; apply Z.leb_le in E; rewrite E;
      by rewrite ?orb_true_r. }
  rewrite A, R, W. simpl. repeat split; lia.
Qed.

(** C9, as the code has it.  Each window start is the floor of a clock
    reading of its own: the first reading of the call gives the minute
    window, the second the hour window, the third the day window.  When
    the three readings fall in one minute, the three window starts are
    those of one instant. *)
Theorem window_starts_from_three_readings a p w :
  let o := fst (checkRateLimit_read a p w) in
  let t1 := clock w (ticks w) in
  let t2 := clock w (S (ticks w)) in
  let t3 := clock w (S (S (ticks w))) in
  (minuteWindow o = floorTo minute t1
   /\ hourWindow o = floorTo hour t2
   /\ dayWindow o = floorTo day t3)
  /\ (floorTo minute t2 = floorTo minute t1 ->
      floorTo minute t3 = floorTo minute t1 ->
      minuteWindow o = floorTo minute t1
      /\ hourWindow o = floorTo hour t1
      /\ dayWindow o = floorTo day t1).
Proof.
  intros o t1 t2 t3.
  destruct (checkRateLimit_read_windows a p w) as (Hm & Hh & Hd).
  fold o t1 t2 t3 in Hm, Hh, Hd.
  split; [done|]. intros E2 E3.
  assert (Q : forall x y, floorTo minute x = floorTo minute y ->
              (x + tzOffsetMs) / 60000 = (y + tzOffsetMs) / 60000).
  { unfold floorTo; intros x y E.
    change (windowMs minute) with 60000 in E.
    apply (Z.mul_cancel_r _ _ 60000); lia. }
  apply Q in E2, E3.
  rewrite Hm, Hh, Hd. unfold floorTo.
  change (windowMs hour) with (60000 * 60).
  change (windowMs day) with (60000 * 1440).
  rewrite <- !Z.div_div by lia. rewrite E2, E3. done.
Qed.

End RateLimiterFacts.

Lemma retry_after_until_window_end_witness :
  retryAfter (fst (@checkRateLimit utcRuntime "k1" "p1" dayBlockedWorld))
  = Some 86399
  /\ exists retry,
       retryAfter (fst (@checkRateLimit utcRuntime "k1" "p1" dayBlockedWorld))
       = Some retry
       /\ @secondsUntilEndOfWindow utcRuntime day 1000 retry
       /\ 1 <= retry <= 86400.
Proof.
  destruct (proj1 (@retry_after_until_window_end utcRuntime "k1" "p1"
                     dayBlockedWorld)) as (R & Q).
  - vm_compute. discriminate.
  - split; [exact R|]. apply Q. reflexivity.
Defined.

(** C2, as the spec has it, fails.  The minute ceiling of the key is met
    and the call is refused.  [getWindowEnd] reads the clock at 59.999 s
    and returns the end of the first minute; [Date.now()] then reads
    60.001 s, in the second minute, whose end is 60 seconds away.  The
    retry-after is 0.  On a host that stalls between the two readings it
    is negative. *)
Lemma retry_after_window_passed_counterexample :
  allowed (fst (@checkRateLimit utcRuntime "k1" "p1" minuteTurnWorld)) = false
  /\ clock minuteTurnWorld 4 = 60001
  /\ retryAfter (fst (@checkRateLimit utcRuntime "k1" "p1" minuteTurnWorld))
     = Some 0
  /\ @secondsUntilEndOfWindow utcRuntime minute 60001 60
  /\ ~ @secondsUntilEndOfWindow utcRuntime minute 60001 0
  /\ retryAfter (fst (@checkRateLimit utcRuntime "k1" "p1" minutePassedWorld))
     = Some (-65).
Proof.
  split; [reflexivity|]. split; [reflexivity|]. split; [reflexivity|].
  split; [|split; [|reflexivity]].
  - exists 120000. repeat split; try reflexivity; discriminate.
  - intros (e & _ & [Lo _] & [_ Hi]). simpl in Lo, Hi. lia.
Qed.

Lemma denied_leaves_counters_witness :
  allowed (fst (@checkRateLimit utcRuntime "k1" "p1" dayBlockedWorld)) = false
  /\ db (snd (@checkRateLimit utcRuntime "k1" "p1" dayBlockedWorld))
     = db dayBlockedWorld.
Proof.
  destruct (@denied_leaves_counters utcRuntime "k1" "p1" dayBlockedWorld)
    as (A & D & _).
  - right; right. vm_compute. discriminate.
  - exact (conj A D).
Defined.

Lemma window_starts_from_three_readings_witness :
  hourWindow (fst (@checkRateLimit_read utcRuntime "k1" "p1" dayBlockedWorld))
  = @floorTo utcRuntime hour 1000.
Proof.
  destruct (@window_starts_from_three_readings utcRuntime "k1" "p1" dayBlockedWorld)
    as (_ & Q).
  destruct Q as (_ & Hh & _); [reflexivity | reflexivity | exact Hh].
Defined.

(** C9, as the spec has it, fails: when the hour turns between the first
    two readings the minute window starts at 00:59 and the hour window at
    01:00, and no instant has both as its floors. *)
Lemma window_starts_single_now_counterexample :
  minuteWindow (fst (@checkRateLimit_read utcRuntime "k1" "p1" hourTurnWorld))
  = 3540000
  /\ hourWindow (fst (@checkRateLimit_read utcRuntime "k1" "p1" hourTurnWorld))
     = 3600000
  /\ ~ exists now : Z,
       minuteWindow (fst (@checkRateLimit_read utcRuntime "k1" "p1" hourTurnWorld))
       = @floorTo utcRuntime minute now
       /\ hourWindow (fst (@checkRateLimit_read utcRuntime "k1" "p1" hourTurnWorld))
          = @floorTo utcRuntime hour now
       /\ dayWindow (fst (@checkRateLimit_read utcRuntime "k1" "p1" hourTurnWorld))
          = @floorTo utcRuntime day now.
Proof.
  split; [reflexivity|]. split; [reflexivity|].
  intros (now & Hm & Hh & _).
  change (3540000 = (now + 0) / 60000 * 60000 - 0) in Hm.
  change (3600000 = (now + 0) / 3600000 * 3600000 - 0) in Hh.
  pose proof (Z.mul_div_le (now + 0) 60000 ltac:(lia)).
  pose proof (Z.mul_succ_div_gt (now + 0) 60000 ltac:(lia)).
  pose proof (Z.mul_div_le (now + 0) 3600000 ltac:(lia)).
  lia.
Qed.

(** ** Policy resolution *)



Lemma opt_eqb_eq (a b : option string) : opt_eqb a b = true <-> a = b.
Proof.
  destruct a, b; simpl; try (split; congruence).
  rewrite String.eqb_eq. split; congruence.
Qed.

Lemma config_matches_key scope target r :
  config_matches scope target r = true
  <-> scopeKey r = (scope, target) /\ cfg_is_active r = true.
Proof.
  unfold config_matches, scopeKey.
  rewrite !andb_true_iff, String.eqb_eq, opt_eqb_eq.
  split; [intros [[-> ->] ->]; done | intros [[= -> ->] ->]; done].
Qed.





(** ** Response headers *)

(** C10. Whatever the result, the three limit headers carry the literals
    60, 1000 and 10000; the remaining and reset headers carry the values
    of the result. *)
Theorem rate_limit_headers_fixed_limits (result : RateLimitResult) :
  let hs := getRateLimitHeaders result in
  header "X-RateLimit-Limit-Minute" hs = Some "60"
  /\ header "X-RateLimit-Limit-Hour" hs = Some "1000"
  /\ header "X-RateLimit-Limit-Day" hs = Some "10000"
  /\ header "X-RateLimit-Remaining-Minute" hs
     = Some (String_of (of_minute (remaining result)))
  /\ header "X-RateLimit-Remaining-Hour" hs
     = Some (String_of (of_hour (remaining result)))
  /\ header "X-RateLimit-Remaining-Day" hs
     = Some (String_of (of_day (remaining result)))
  /\ header "X-RateLimit-Reset-Minute" hs = Some (of_minute (reset result))
  /\ header "X-RateLimit-Reset-Hour" hs = Some (of_hour (reset result))
  /\ header "X-RateLimit-Reset-Day" hs = Some (of_day (reset result)).
Proof.
  repeat split.
Qed.

(** The credential [k1] is held to five requests per minute, and the
    header still announces sixty. *)
Example headers_ignore_resolved_policy :
  let r := fst (@checkRateLimit utcRuntime "k1" "p1" twoPoliciesWorld) in
  of_minute (remaining r) = 4
  /\ header "X-RateLimit-Limit-Minute" (getRateLimitHeaders r) = Some "60"
  /\ header "X-RateLimit-Remaining-Minute" (getRateLimitHeaders r) = Some "4".
Proof. vm_compute. repeat split. Qed.

(** ** The authenticator *)

Section AuthFacts.
Context `{Runtime}.

(** C5, as the code has it.  The empty key is turned down as missing
    before anything else (see the counterexample below).  For every other
    key the checks come in this order, each with its rejection: the format
    (malformed, whatever the store holds, and the world is left as it
    was); the lookup by digest (unknown when no credential has the
    digest); the active flag (inactive); the revocation time (revoked);
    the expiry time against the clock (expired); and a key that passes all
    of them yields the credential id and the tenant id. *)
Theorem validateApiKey_order (apiKey : string) (w : World) :
  apiKey <> "" ->
  let r := fst (validateApiKey apiKey w) in
  let w' := snd (validateApiKey apiKey w) in
  let now := clock w (ticks w) in
  let digest := hasDigest (hashApiKey apiKey) in
  (matchesKeyFormat apiKey = false ->
   keyErrorCode r = Some (errorCodeOf MalformedKey)
   /\ isValid r = false /\ w' = w)
  /\ (matchesKeyFormat apiKey = true ->
      (List.filter digest (api_keys (db w)) = [] ->
       keyErrorCode r = Some (errorCodeOf UnknownKey) /\ isValid r = false)
      /\ forall c, List.filter digest (api_keys (db w)) = [c] ->
         (key_is_active c = false ->
          keyErrorCode r = Some (errorCodeOf InactiveKey) /\ isValid r = false)
         /\ (key_is_active c = true ->
             (is_Some (key_revoked_at c) ->
              keyErrorCode r = Some (errorCodeOf RevokedKey)
              /\ isValid r = false)
             /\ (key_revoked_at c = None ->
                 (forall e, key_expires_at c = Some e -> e < now ->
                  keyErrorCode r = Some (errorCodeOf ExpiredKey)
                  /\ isValid r = false)
                 /\ ((forall e, key_expires_at c = Some e -> now <= e) ->
                     isValid r = true
                     /\ apiKeyId r = Some (key_id c)
                     /\ professionalId r = Some (key_professional_id c))))).
Proof.
  intros Hne r w' now digest. subst r w' digest.
  unfold validateApiKey.
  rewrite (proj2 (String.eqb_neq _ _) Hne).
  split.
  - intros ->. simpl. done.
  - intros ->. simpl. unfold bind, select_single.
    split.
    + intros ->. simpl. done.
    + intros c ->. simpl. split.
      * intros ->. simpl. done.
      * intros ->. simpl. split.
        -- intros R. rewrite bool_decide_eq_true_2 by done. done.
        -- intros R. rewrite R.
           rewrite bool_decide_eq_false_2 by (by intros [? ?]).
           split.
           ++ intros e -> Hlt. simpl. fold now.
              rewrite (proj2 (Z.ltb_lt _ _) Hlt). done.
           ++ intros Hexp. destruct (key_expires_at c) as [e|] eqn:E; simpl.
              ** fold now.
                 rewrite (proj2 (Z.ltb_ge _ _)) by (by apply Hexp). done.
              ** done.
Qed.

Lemma filter_map_stable {A} (p : A -> bool) (f : A -> A) (l : list A) :
  (forall x, p (f x) = p x) ->
  List.filter p (map f l) = map f (List.filter p l).
Proof.
  intros E. induction l as [|x l IH]; simpl; [done|].
  rewrite E. destruct (p x); simpl; by rewrite IH.
Qed.

(** What it takes for a key to be turned down as expired. *)
Lemma expired_inversion (apiKey : string) (w : World) :
  keyErrorCode (fst (validateApiKey apiKey w)) = Some "expired_api_key" ->
  exists c e,
    List.filter (hasDigest (hashApiKey apiKey)) (api_keys (db w)) = [c]
    /\ apiKey <> "" /\ matchesKeyFormat apiKey = true
    /\ key_expires_at c = Some e /\ e < clock w (ticks w)
    /\ api_keys (db (snd (validateApiKey apiKey w)))
       = map (fun r => if String.eqb (key_id r) (key_id c)
                       then deactivate r else r)
             (api_keys (db w)).
Proof.
  unfold validateApiKey.
  destruct (String.eqb_spec apiKey "") as [|Hne]; [discriminate|].
  destruct (matchesKeyFormat apiKey) eqn:F; simpl; [|discriminate].
  unfold bind, select_single.
  destruct (List.filter (hasDigest (hashApiKey apiKey)) (api_keys (db w)))
    as [|c [|c' l]]; simpl; try discriminate.
  destruct (key_is_active c); simpl; [|discriminate].
  destruct (bool_decide (is_Some (key_revoked_at c))); simpl; [discriminate|].
  destruct (key_expires_at c) as [e|] eqn:E; simpl; [|discriminate].
  destruct (e <? clock w (ticks w)) eqn:L; simpl; [|discriminate].
  intros _. exists c, e. apply Z.ltb_lt in L. done.
Qed.

(** C6. When a key is turned down as expired, the store that the call
    leaves behind holds the credential with its active flag off, and
    every later call with the same key on that store, whatever the clock
    says by then, is turned down as inactive. *)
Theorem expiry_deactivation_persists (apiKey : string) (w : World) :
  keyErrorCode (fst (validateApiKey apiKey w)) = Some (errorCodeOf ExpiredKey) ->
  let w1 := snd (validateApiKey apiKey w) in
  (forall c, In c (api_keys (db w1)) ->
             hasDigest (hashApiKey apiKey) c = true ->
             key_is_active c = false)
  /\ forall w2, api_keys (db w2) = api_keys (db w1) ->
       isValid (fst (validateApiKey apiKey w2)) = false
       /\ keyErrorCode (fst (validateApiKey apiKey w2))
          = Some (errorCodeOf InactiveKey).
Proof.
  intros Hexp w1.
  destruct (expired_inversion apiKey w Hexp)
    as (c & e & Hf & Hne & Hfmt & _ & _ & Hdb).
  fold w1 in Hdb.
  set (f := fun r => if String.eqb (key_id r) (key_id c)
                     then deactivate r else r) in Hdb.
  set (digest := hasDigest (hashApiKey apiKey)) in *.
  assert (Hstable : forall x, digest (f x) = digest x).
  { intros x. unfold f. by destruct (String.eqb (key_id x) (key_id c)). }
  assert (Hf1 : List.filter digest (api_keys (db w1)) = [deactivate c]).
  { rewrite Hdb, filter_map_stable, Hf by done. simpl. unfold f.
    by rewrite String.eqb_refl. }
  split.
  - intros x Hin Hd.
    assert (Hin' : In x (List.filter digest (api_keys (db w1))))
      by (apply filter_In; done).
    rewrite Hf1 in Hin'. destruct Hin' as [<-|[]]. done.
  - intros w2 E2. unfold validateApiKey.
    rewrite (proj2 (String.eqb_neq _ _) Hne), Hfmt. simpl.
    unfold bind, select_single. fold digest.
    rewrite E2, Hf1. simpl. done.
Qed.

End AuthFacts.

Lemma validateApiKey_order_witness :
  keyErrorCode (fst (@validateApiKey utcRuntime sampleKey expiredKeyWorld))
  = Some "expired_api_key".
Proof.
  destruct (@validateApiKey_order utcRuntime sampleKey expiredKeyWorld)
    as (_ & Q); [discriminate|].
  destruct (Q eq_refl) as (_ & Q1).
  destruct (Q1 expiredCredential eq_refl) as (_ & Q2).
  destruct (Q2 eq_refl) as (_ & Q3).
  destruct (Q3 eq_refl) as (Q4 & _).
  destruct (Q4 500 eq_refl) as (E & _); [reflexivity | exact E].
Defined.

(** C5, as the spec has it, fails on the empty key: it does not have the
    format of a key, and the code turns it down as missing, not as
    malformed. *)
Lemma validateApiKey_empty_key_counterexample :
  matchesKeyFormat "" = false
  /\ keyErrorCode (fst (@validateApiKey utcRuntime "" expiredKeyWorld))
     = Some (errorCodeOf MissingKey)
  /\ keyErrorCode (fst (@validateApiKey utcRuntime "" expiredKeyWorld))
     <> Some (errorCodeOf MalformedKey).
Proof.
  split; [reflexivity|]. split; [reflexivity|]. discriminate.
Qed.

Lemma expiry_deactivation_persists_witness :
  keyErrorCode
    (fst (@validateApiKey utcRuntime sampleKey
            (snd (@validateApiKey utcRuntime sampleKey expiredKeyWorld))))
  = Some "inactive_api_key".
Proof.
  destruct (@expiry_deactivation_persists utcRuntime sampleKey expiredKeyWorld)
    as (_ & Q); [reflexivity|].
  exact (proj2 (Q _ eq_refl)).
Defined.

(** ** Sanitizing the request body *)

Lemma length_stars n : String.length (stars n) = n.
Proof. induction n as [|n IH]; simpl; [done|]. by rewrite IH. Qed.

Lemma length_substring (s : string) : forall n m : nat,
  (n + m <= String.length s)%nat -> String.length (String.substring n m s) = m.
Proof.
  induction s as [|c s IH]; intros n m Hle; simpl in *.
  - destruct n, m; simpl; lia.
  - destruct n as [|n]; simpl.
    + destruct m as [|m]; simpl; [done|]. rewrite IH; [done|lia].
    + apply IH. lia.
Qed.

Lemma length_append (s t : string) :
  String.length (s +:+ t) = (String.length s + String.length t)%nat.
Proof. induction s as [|c s IH]; simpl; [done|]. by rewrite IH. Qed.

Lemma substring_append_r (s t : string) (m : nat) :
  String.substring (String.length s) m (s +:+ t) = String.substring 0 m t.
Proof. induction s; simpl; [done|]. apply IHs. Qed.

Lemma substring_append_l (s t : string) :
  String.substring 0 (String.length s) (s +:+ t) = s.
Proof. induction s; simpl; [by destruct t|]. by rewrite IHs. Qed.

Lemma substring_all (s : string) : String.substring 0 (String.length s) s = s.
Proof. induction s; simpl; [done|]. by rewrite IHs. Qed.

(** A phone of more than four characters keeps its length and its last
    four characters, and everything before them is a star. *)
Lemma maskPhone_long (phone : string) :
  (4 < String.length phone)%nat ->
  let n := (String.length phone - 4)%nat in
  String.length (maskPhone phone) = String.length phone
  /\ String.substring n 4 (maskPhone phone) = String.substring n 4 phone
  /\ String.substring 0 n (maskPhone phone) = stars n.
Proof.
  intros Hlen n. unfold maskPhone.
  rewrite (proj2 (Nat.ltb_lt _ _) Hlen). fold n.
  assert (L4 : String.length (String.substring n 4 phone) = 4%nat)
    by (apply length_substring; lia).
  repeat split.
  - rewrite length_append, length_stars, L4. lia.
  - rewrite <- (length_stars n) at 1. rewrite substring_append_r.
    rewrite <- L4 at 1. apply substring_all.
  - rewrite <- (length_stars n) at 1. apply substring_append_l.
Qed.

Lemma sanitizeRequestBody_copy (b : positive) (w : World) :
  sanitizeRequestBody (Some b) w
  = (Some (fresh (dom (heap w))),
     set_heap (<[fresh (dom (heap w)) := sanitizedFields (default ∅ (heap w !! b))]>
                 (heap w)) w).
Proof.
  unfold sanitizeRequestBody, bind, fieldsOf, allocate, getField, ret. simpl.
  set (l := fresh (dom (heap w))). set (fields := default ∅ (heap w !! b)).
  rewrite lookup_insert_eq. simpl.
  unfold sanitizedFields.
  destruct (fields !! "client_phone") as [[| | |phone| |]|]; simpl;
    unfold deleteField, setField, set_heap; simpl;
    try destruct (String.eqb phone ""); simpl;
    rewrite ?lookup_insert_eq; simpl; rewrite ?insert_insert_eq;
    rewrite ?lookup_insert_eq; simpl; rewrite ?insert_insert_eq;
    rewrite ?lookup_insert_eq; simpl; rewrite ?insert_insert_eq;
    rewrite ?lookup_insert_eq; simpl; rewrite ?insert_insert_eq;
    reflexivity.
Qed.

Lemma sanitizedFields_removed (fields : gmap string JsValue) :
  sanitizedFields fields !! "password" = None
  /\ sanitizedFields fields !! "token" = None
  /\ sanitizedFields fields !! "api_key" = None.
Proof.
  unfold sanitizedFields. repeat split.
  - rewrite lookup_delete_ne, lookup_delete_ne by done. apply lookup_delete_eq.
  - rewrite lookup_delete_ne by done. apply lookup_delete_eq.
  - apply lookup_delete_eq.
Qed.

Lemma sanitizedFields_client_phone (fields : gmap string JsValue) (phone : string) :
  fields !! "client_phone" = Some (JsString phone) ->
  phone <> "" ->
  sanitizedFields fields !! "client_phone" = Some (JsString (maskPhone phone)).
Proof.
  intros E Hne. unfold sanitizedFields. rewrite E.
  rewrite (proj2 (String.eqb_neq _ _) Hne).
  rewrite !lookup_delete_ne by done. apply lookup_insert_eq.
Qed.

Lemma sanitizedFields_other (fields : gmap string JsValue) (k : string) :
  k <> "client_phone" -> k <> "password" -> k <> "token" -> k <> "api_key" ->
  sanitizedFields fields !! k = fields !! k.
Proof.
  intros. unfold sanitizedFields.
  rewrite !lookup_delete_ne by done.
  destruct (fields !! "client_phone") as [[| | |phone| |]|]; try done.
  destruct (String.eqb phone ""); [done|]. by rewrite lookup_insert_ne.
Qed.

(** C7, as the code has it.  [sanitizeRequestBody] answers on every
    input: [null] for [null], and else a new object, while every object
    that was there before, the body among them, keeps its fields; nothing
    but the heap changes.  In the new object [password], [token] and
    [api_key] are absent; a [client_phone] string of more than four
    characters has kept its length and its last four characters and is
    [*] before them; a non-empty [client_phone] string of at most four
    characters has become four stars; every other field is as in the
    body. *)
Theorem sanitize_copy_masks_client_phone (w : World) :
  sanitizeRequestBody None w = (None, w)
  /\ forall (b : positive) (fields : gmap string JsValue),
     heap w !! b = Some fields ->
     exists (copy : positive) (out : gmap string JsValue),
       fst (sanitizeRequestBody (Some b) w) = Some copy
       /\ heap w !! copy = None
       /\ heap (snd (sanitizeRequestBody (Some b) w)) !! copy = Some out
       /\ (forall l, l <> copy ->
             heap (snd (sanitizeRequestBody (Some b) w)) !! l = heap w !! l)
       /\ heap (snd (sanitizeRequestBody (Some b) w)) !! b = Some fields
       /\ snd (sanitizeRequestBody (Some b) w)
          = set_heap (heap (snd (sanitizeRequestBody (Some b) w))) w
       /\ out !! "password" = None
       /\ out !! "token" = None
       /\ out !! "api_key" = None
       /\ (forall phone,
             fields !! "client_phone" = Some (JsString phone) ->
             (4 < String.length phone)%nat ->
             exists masked,
               out !! "client_phone" = Some (JsString masked)
               /\ String.length masked = String.length phone
               /\ String.substring (String.length phone - 4) 4 masked
                  = String.substring (String.length phone - 4) 4 phone
               /\ String.substring 0 (String.length phone - 4) masked
                  = stars (String.length phone - 4))
       /\ (forall phone,
             fields !! "client_phone" = Some (JsString phone) ->
             phone <> "" -> (String.length phone <= 4)%nat ->
             out !! "client_phone" = Some (JsString "****"))
       /\ (forall k,
             k <> "client_phone" -> k <> "password" -> k <> "token" ->
             k <> "api_key" ->
             out !! k = fields !! k).
Proof.
  split; [reflexivity|]. intros b fields Hb.
  rewrite sanitizeRequestBody_copy. rewrite Hb. simpl.
  set (copy := fresh (dom (heap w))).
  assert (Hfresh : heap w !! copy = None).
  { apply not_elem_of_dom. apply is_fresh. }
  assert (Hbc : b <> copy) by (intros ->; congruence).
  exists copy, (sanitizedFields fields).
  destruct (sanitizedFields_removed fields) as (P & T & K).
  repeat split; try done.
  - apply lookup_insert_eq.
  - intros l Hl. by rewrite lookup_insert_ne.
  - by rewrite lookup_insert_ne.
  - intros phone E Hlen.
    destruct (maskPhone_long phone Hlen) as (L & S4 & St).
    exists (maskPhone phone). repeat split; try done.
    apply sanitizedFields_client_phone; [done|].
    intros ->. simpl in Hlen. lia.
  - intros phone E Hne Hlen.
    rewrite (sanitizedFields_client_phone _ _ E Hne). unfold maskPhone.
    by rewrite (proj2 (Nat.ltb_ge _ _) Hlen).
  - intros k ? ? ? ?. by apply sanitizedFields_other.
Qed.

Lemma sanitize_copy_masks_client_phone_witness :
  exists (copy : positive) (out : gmap string JsValue),
    fst (sanitizeRequestBody (Some 1%positive) shortPhoneWorld) = Some copy
    /\ heap (snd (sanitizeRequestBody (Some 1%positive) shortPhoneWorld)) !! copy
       = Some out
    /\ heap (snd (sanitizeRequestBody (Some 1%positive) shortPhoneWorld)) !! 1%positive
       = Some shortPhoneBody
    /\ out !! "client_phone" = Some (JsString "****")
    /\ out !! "token" = None.
Proof.
  destruct (proj2 (sanitize_copy_masks_client_phone shortPhoneWorld)
              1%positive shortPhoneBody eq_refl)
    as (copy & out & E1 & _ & E2 & _ & E3 & _ & _ & T & _ & _ & Short & _).
  exists copy, out. repeat split; try assumption.
  apply (Short "123"); [reflexivity | discriminate | simpl; lia].
Defined.

(** The example of the spec. *)
Example maskPhone_example : maskPhone "0501234567" = "******4567".
Proof. reflexivity. Qed.

(** C7, as the spec has it, fails.  A [client_phone] of three characters
    comes out four characters long, and a phone number under any other
    name comes out as it went in. *)
Lemma sanitize_phone_shaped_counterexample :
  exists (copy : positive) (out : gmap string JsValue),
    fst (sanitizeRequestBody (Some 1%positive) shortPhoneWorld) = Some copy
    /\ heap (snd (sanitizeRequestBody (Some 1%positive) shortPhoneWorld)) !! copy
       = Some out
    /\ shortPhoneBody !! "client_phone" = Some (JsString "123")
    /\ out !! "client_phone" = Some (JsString "****")
    /\ String.length "****" <> String.length "123"
    /\ shortPhoneBody !! "contact_phone" = Some (JsString "0501234567")
    /\ out !! "contact_phone" = Some (JsString "0501234567").
Proof.
  rewrite sanitizeRequestBody_copy. simpl.
  eexists _, _. split; [reflexivity|]. split; [apply lookup_insert_eq|].
  repeat split; try discriminate; vm_compute; reflexivity.
Qed.

(** ** The handler and the audit log *)

Lemma emits_ret {A} (a : A) (Q : A -> list LogRow -> Prop) :
  Q a [] -> emits (ret a) Q.
Proof. intros HQ w. exists []. simpl. by rewrite app_nil_r. Qed.

Lemma emits_bind {A B} (m : M A) (k : A -> M B) Q1 (Q : B -> list LogRow -> Prop) :
  emits m Q1 ->
  (forall a rows1, Q1 a rows1 -> emits (k a) (fun b rows2 => Q b (rows1 ++ rows2))) ->
  emits (bind m k) Q.
Proof.
  intros Hm Hk w. unfold bind.
  destruct (Hm w) as (rows1 & E1 & H1).
  destruct (m w) as [a w1]; simpl in *.
  destruct (Hk a rows1 H1 w1) as (rows2 & E2 & H2).
  exists (rows1 ++ rows2). split; [|done].
  by rewrite E2, E1, app_assoc.
Qed.

Lemma silent_bind {A B} (m : M A) (k : A -> M B) (Q : B -> list LogRow -> Prop) :
  silent m -> (forall a, emits (k a) Q) -> emits (bind m k) Q.
Proof.
  intros Hm Hk. apply (emits_bind _ _ _ _ Hm).
  intros a rows1 ->. simpl. apply Hk.
Qed.

Lemma silent_same_logs {A} (m : M A) :
  (forall w, logs (snd (m w)) = logs w) -> silent m.
Proof. intros E w. exists []. by rewrite E, app_nil_r. Qed.

Section PipelineFacts.
Context `{Runtime} `{Collaborators}.

Lemma validateApiKey_silent k : silent (validateApiKey k).
Proof.
  apply silent_same_logs. intros w. unfold validateApiKey.
  destruct (String.eqb k ""); [done|].
  destruct (matchesKeyFormat k); simpl; [|done].
  unfold bind, select_single.
  destruct (single _) as [c|]; simpl; [|done].
  destruct (key_is_active c); simpl; [|done].
  destruct (bool_decide _); simpl; [done|].
  destruct (key_expires_at c) as [e|]; simpl; [|done].
  destruct (e <? _); simpl; done.
Qed.

Lemma checkRateLimit_silent a p : silent (checkRateLimit a p).
Proof.
  apply silent_same_logs. intros w. rewrite @checkRateLimit_unfold.
  set (o := fst (checkRateLimit_read a p w)).
  unfold checkRateLimit_decide.
  destruct (minuteExceeded o || hourExceeded o || dayExceeded o); [|done].
  destruct (dayExceeded o), (hourExceeded o); done.
Qed.

Lemma finalizeRequest_emits context response :
  emits (finalizeRequest context response)
        (fun _ rows => exists row,
           rows = [row]
           /\ log_response_status row = fin_status response
           /\ log_error_code row = truthy (fin_errorCode response)).
Proof.
  intros w. unfold finalizeRequest, bind, newDate.
  destruct (requestBody context) as [b|].
  - rewrite sanitizeRequestBody_copy. simpl. eexists. split; [reflexivity|].
    eexists. repeat split.
  - simpl. eexists. split; [reflexivity|]. eexists. repeat split.
Qed.

Lemma allocate_silent fields : silent (allocate fields).
Proof. by apply silent_same_logs. Qed.

Lemma createRequestContext_silent req e : silent (createRequestContext req e).
Proof. by apply silent_same_logs. Qed.

Ltac finalize_and_return :=
  eapply emits_bind; [apply finalizeRequest_emits|];
  intros ? ? (row & -> & St & _); apply emits_ret; simpl;
  exists row; repeat split; try done.

Lemma tryBlock_emits req context :
  (forall p b, silent (submitLead p b)) ->
  emits (tryBlock req context) leftTry.
Proof.
  intros Hsub. unfold tryBlock.
  destruct (negb (String.eqb (method req) "POST")); [finalize_and_return|].
  destruct (extractApiKey req) as [apiKey|]; [|finalize_and_return].
  apply silent_bind; [apply validateApiKey_silent|]. intros keyValidation.
  destruct (negb (isValid keyValidation)); [finalize_and_return|].
  apply silent_bind; [apply checkRateLimit_silent|]. intros rateLimitResult.
  destruct (negb (allowed rateLimitResult)); [finalize_and_return|].
  destruct (json req) as [parsed|]; [|finalize_and_return].
  apply silent_bind; [apply allocate_silent|]. intros requestBody.
  apply silent_bind; [apply Hsub|]. intros [result|message].
  - destruct (negb (success result)); finalize_and_return.
  - by apply emits_ret.
Qed.

Lemma attempt_emits req :
  (forall p b, silent (submitLead p b)) ->
  emits (attempt req)
        (fun out rows => exists response row,
           out = Returned response /\ rows = [row]
           /\ log_response_status row = status response
           /\ (status response = 500 ->
               log_error_code row = Some "internal_error")).
Proof.
  intros Hsub. unfold attempt.
  apply silent_bind; [apply createRequestContext_silent|]. intros context.
  eapply emits_bind; [by apply tryBlock_emits|].
  intros [[response|message] context'] rows1; unfold leftTry; simpl.
  - intros (row & -> & St & N5). apply emits_ret.
    exists response, row. simpl. repeat split; try done.
  - intros ->. eapply emits_bind; [apply finalizeRequest_emits|].
    intros ? ? (row & -> & St & Ec). apply emits_ret. simpl.
    eexists _, row. simpl. repeat split; try done.
Qed.

(** C8, as the code has it.  For every call that is not a CORS preflight,
    on a host whose client can be made, and with a lead submission that
    does not write audit rows itself, the handler returns a response and
    has by then called [finalizeRequest] once and only once: the audit log
    has grown by one row, which carries the status of the response.  That
    holds on every way through the handler: wrong method, missing key,
    invalid key, rate limit, invalid JSON, validation failure, success,
    and an exception caught by the outer [catch], which is the only way
    to a 500 and logs [internal_error]. *)
Theorem serve_logs_once (req : Request) (w : World) :
  method req <> "OPTIONS" ->
  fst (getSupabaseClient w) = Ok tt ->
  (forall p b, silent (submitLead p b)) ->
  exists response row,
    fst (serve req w) = Returned response
    /\ logs (snd (serve req w)) = logs w ++ [row]
    /\ log_response_status row = status response
    /\ (status response = 500 -> log_error_code row = Some "internal_error").
Proof.
  intros Hm Hc Hsub.
  assert (Es : serve req w = attempt req w).
  { unfold serve. rewrite (proj2 (String.eqb_neq _ _) Hm). unfold bind.
    assert (Hw : snd (getSupabaseClient w) = w).
    { unfold getSupabaseClient. by destruct (_ || _). }
    destruct (getSupabaseClient w) as [client w1]; simpl in Hc, Hw.
    by subst. }
  rewrite Es.
  destruct (attempt_emits req Hsub w)
    as (rows & E & response & row & Eo & -> & St & I).
  exists response, row. done.
Qed.
End PipelineFacts.

Lemma serve_logs_once_witness :
  exists response row,
    fst (@serve utcRuntime acceptingCollaborators postWithoutKey
           (worldOf emptyDatabase [] 0)) = Returned response
    /\ logs (snd (@serve utcRuntime acceptingCollaborators postWithoutKey
                    (worldOf emptyDatabase [] 0))) = [row]
    /\ log_response_status row = status response.
Proof.
  destruct (@serve_logs_once utcRuntime acceptingCollaborators postWithoutKey
              (worldOf emptyDatabase [] 0))
    as (response & row & E & L & St & _).
  - discriminate.
  - reflexivity.
  - intros p b. by apply emits_ret.
  - exists response, row. repeat split; assumption.
Defined.

(** C8, as the spec has it, fails.  A CORS preflight is answered before
    the context exists, and a host without its environment variables
    throws before the [try] block is entered: in both cases no audit row
    is written. *)
Lemma serve_preflight_counterexample :
  fst (@serve utcRuntime acceptingCollaborators preflight
         (worldOf emptyDatabase [] 0))
  = Returned {| status := 200;
                resp_headers := [("Access-Control-Allow-Origin", "*")];
                resp_body := None |}
  /\ logs (snd (@serve utcRuntime acceptingCollaborators preflight
                  (worldOf emptyDatabase [] 0))) = []
  /\ fst (@serve utcRuntime acceptingCollaborators postWithoutKey
            unconfiguredWorld)
     = Uncaught "Server configuration error"
  /\ logs (snd (@serve utcRuntime acceptingCollaborators postWithoutKey
                  unconfiguredWorld)) = [].
Proof. repeat split. Qed.

(** ** Admission under a ceiling *)

Section SequentialCalls.
Context `{Runtime}.



Lemma checkRateLimit_read_eq a p w :
  fst (checkRateLimit_read a p w)
  = let mw := floorTo minute (clock w (ticks w)) in
    let hw := floorTo hour (clock w (S (ticks w))) in
    let dw := floorTo day (clock w (S (S (ticks w)))) in
    let config := fst (getRateLimitConfig a p w) in
    match single (List.filter (tracking_matches a "api_key")
                              (api_rate_limit_tracking (db w))) with
    | Some t =>
      {| o_identifier := a; o_config := config;
         minuteWindow := mw; hourWindow := hw; dayWindow := dw;
         minuteCount := if minute_window t <? mw then 0 else minute_count t;
         hourCount := if hour_window t <? hw then 0 else hour_count t;
         dayCount := if day_window t <? dw then 0 else day_count t |}
    | None =>
      {| o_identifier := a; o_config := config;
         minuteWindow := mw; hourWindow := hw; dayWindow := dw;
         minuteCount := 0; hourCount := 0; dayCount := 0 |}
    end.
Proof.
  unfold checkRateLimit_read, bind.
  pose proof (getRateLimitConfig_world a p w) as E.
  destruct (getRateLimitConfig a p w) as [cfg w1]; simpl in E; subst w1.
  reflexivity.
Qed.

Lemma existsb_filter {A} (p : A -> bool) (l : list A) :
  existsb p l = match List.filter p l with [] => false | _ => true end.
Proof.
  induction l as [|x l IH]; simpl; [done|]. by destruct (p x).
Qed.

(** The rows of the credential after the upsert of [r]. *)
Lemma upsert_tracking_filter (r : TrackingRow) (w : World) :
  let hit := tracking_matches (identifier r) (identifier_type r) in
  (length (List.filter hit (api_rate_limit_tracking (db w))) <= 1)%nat ->
  List.filter hit (api_rate_limit_tracking (db (snd (upsert_tracking r w)))) = [r].
Proof.
  intros hit Hlen. unfold upsert_tracking. simpl. fold hit.
  assert (Hr : hit r = true).
  { unfold hit, tracking_matches. by rewrite !String.eqb_refl. }
  rewrite existsb_filter.
  destruct (List.filter hit (api_rate_limit_tracking (db w))) as [|x [|y l]] eqn:E.
  - rewrite List.filter_app, E. simpl. by rewrite Hr.
  - rewrite filter_map_stable.
    + rewrite E. simpl.
      assert (Hx : hit x = true).
      { assert (In x [x]) as Hin by (by left). rewrite <- E in Hin.
        by apply filter_In in Hin as [_ ?]. }
      by rewrite Hx.
    + intros z. destruct (hit z) eqn:Ez; [done|]. by rewrite Ez.
  - simpl in Hlen. lia.
Qed.

Lemma decide_allowed o w :
  minuteExceeded o || hourExceeded o || dayExceeded o = false ->
  allowed (fst (checkRateLimit_decide o w)) = true
  /\ snd (checkRateLimit_decide o w)
     = advance 3 (snd (upsert_tracking
         {| identifier := o_identifier o;
            identifier_type := "api_key";
            minute_window := minuteWindow o;
            minute_count := minuteCount o + 1;
            hour_window := hourWindow o;
            hour_count := hourCount o + 1;
            day_window := dayWindow o;
            day_count := dayCount o + 1;
            last_request_at := clock w (ticks w) |} (advance 1 w))).
Proof.
  intros E. unfold checkRateLimit_decide. rewrite E. split; reflexivity.
Qed.


Variables (a p : string) (w0 : World) (K : Z).

Hypothesis ceiling_minute :
  requests_per_minute (fst (getRateLimitConfig a p w0)) = K.
Hypothesis ceiling_hour :
  K <= requests_per_hour (fst (getRateLimitConfig a p w0)).
Hypothesis ceiling_day :
  K <= requests_per_day (fst (getRateLimitConfig a p w0)).
Hypothesis one_minute :
  forall i, (ticks w0 <= i)%nat ->
    floorTo minute (clock w0 i) = floorTo minute (clock w0 (ticks w0)).








End SequentialCalls.


(** The scheduler that finishes one call before it starts the next gives
    what the sequential run gives. *)
Example one_after_the_other :
  map call_allowed
      (fst (@run_schedule utcRuntime [0; 0; 1; 1]%nat (twoCalls, oneSlotWorld)))
  = [true; false].
Proof. reflexivity. Qed.


(** ** More on the rate limiter *)

Section MoreRateLimiterFacts.
Context `{Runtime}.

Lemma floorTo_bounds (t : WindowType) (now : Z) :
  floorTo t now <= now < floorTo t now + windowMs t.
Proof.
  unfold floorTo.
  assert (0 < windowMs t) by (destruct t; simpl; lia).
  pose proof (Z.mul_div_le (now + tzOffsetMs) (windowMs t) ltac:(lia)).
  pose proof (Z.mul_succ_div_gt (now + tzOffsetMs) (windowMs t) ltac:(lia)).
  lia.
Qed.

(** X1. On a host whose local time is UTC plus a constant offset, the
    window that [getWindowStart] and [getWindowEnd] compute holds the
    clock reading they took: it starts at or before the reading and ends
    after it, is as long as its granularity, starts on a boundary of the
    local time, and flooring its start again changes nothing. *)
Theorem window_holds_its_reading (t : WindowType) (w : World) :
  let now := clock w (ticks w) in
  fst (getWindowStart t w) <= now < fst (getWindowEnd t w)
  /\ fst (getWindowEnd t w) - fst (getWindowStart t w) = windowMs t
  /\ (fst (getWindowStart t w) + tzOffsetMs) mod windowMs t = 0
  /\ floorTo t (fst (getWindowStart t w)) = fst (getWindowStart t w).
Proof.
  intros now. change (fst (getWindowStart t w)) with (floorTo t now).
  change (fst (getWindowEnd t w)) with (floorTo t now + windowMs t).
  pose proof (floorTo_bounds t now).
  assert (0 < windowMs t) by (destruct t; simpl; lia).
  repeat split; try lia.
  - unfold floorTo. rewrite Z.sub_add. apply Z.mod_mul. lia.
  - unfold floorTo. rewrite Z.sub_add. rewrite Z.div_mul by lia. done.
Qed.

Lemma ceilSeconds_bounds (ms bound : Z) :
  0 < ms <= bound * 1000 -> 1 <= ceilSeconds ms <= bound.
Proof.
  intros [Hlo Hhi]. unfold ceilSeconds.
  pose proof (Z.mul_div_le (- ms) 1000 ltac:(lia)).
  pose proof (Z.mul_succ_div_gt (- ms) 1000 ltac:(lia)).
  lia.
Qed.

(** X2. When the reading taken for "now" still lies in the window whose
    end was just computed, the retry-after of a refused call is at least
    one second and at most the length of the window: 60, 3600 or 86400. *)
Theorem retry_after_bounds a p w :
  let o := fst (checkRateLimit_read a p w) in
  let r := fst (checkRateLimit a p w) in
  let g := if dayExceeded o then day
           else if hourExceeded o then hour else minute in
  let at_ := clock w (3 + ticks w)%nat in
  let now := clock w (4 + ticks w)%nat in
  minuteExceeded o || hourExceeded o || dayExceeded o = true ->
  floorTo g at_ <= now < floorTo g at_ + windowMs g ->
  exists retry, retryAfter r = Some retry /\ 1 <= retry <= windowMs g / 1000.
Proof.
  intros o r g at_ now Hex Hin. subst r. rewrite checkRateLimit_unfold. fold o.
  destruct (decide_denied o (advance 3 w) Hex) as (_ & R & _).
  eexists. split; [exact R|]. fold g. unfold secondsToWindowEnd.
  apply ceilSeconds_bounds.
  change (clock (advance 3 w) (ticks (advance 3 w))) with at_.
  change (clock (advance 3 w) (S (ticks (advance 3 w)))) with now.
  clearbody g at_ now. clear R.
  destruct g; [change (windowMs minute) with (60 * 1000) in *
              |change (windowMs hour) with (3600 * 1000) in *
              |change (windowMs day) with (86400 * 1000) in *];
    rewrite Z.div_mul by lia; lia.
Qed.

(** What [checkRateLimit] leaves in the store. *)
Lemma checkRateLimit_store a p w :
  let o := fst (checkRateLimit_read a p w) in
  let w' := snd (checkRateLimit a p w) in
  api_keys (db w') = api_keys (db w)
  /\ api_rate_limit_config (db w') = api_rate_limit_config (db w)
  /\ api_request_logs (db w') = api_request_logs (db w)
  /\ api_rate_limit_tracking (db w')
     = if minuteExceeded o || hourExceeded o || dayExceeded o
       then api_rate_limit_tracking (db w)
       else api_rate_limit_tracking
              (db (snd (upsert_tracking
                          (upsertedRow o (clock w (3 + ticks w)%nat)) w))).
Proof.
  intros o w'. subst w'. rewrite checkRateLimit_unfold. fold o.
  destruct (minuteExceeded o || hourExceeded o || dayExceeded o) eqn:E.
  - destruct (decide_denied o (advance 3 w) E) as (_ & _ & _ & ->). done.
  - destruct (decide_allowed o (advance 3 w) E) as (_ & ->). done.
Qed.

Lemma tracking_matches_key ident identType (r : TrackingRow) :
  tracking_matches ident identType r = true <-> trackingKey r = (ident, identType).
Proof.
  unfold tracking_matches, trackingKey.
  rewrite andb_true_iff, !String.eqb_eq. split; [intros [-> ->]; done|].
  intros [= -> ->]. done.
Qed.

Lemma upsert_tracking_others (r : TrackingRow) (w : World) :
  let hit := tracking_matches (identifier r) (identifier_type r) in
  List.filter (fun x => negb (hit x))
              (api_rate_limit_tracking (db (snd (upsert_tracking r w))))
  = List.filter (fun x => negb (hit x)) (api_rate_limit_tracking (db w)).
Proof.
  intros hit. unfold upsert_tracking. simpl. fold hit.
  assert (Hr : hit r = true).
  { unfold hit, tracking_matches. by rewrite !String.eqb_refl. }
  destruct (existsb hit (api_rate_limit_tracking (db w))).
  - induction (api_rate_limit_tracking (db w)) as [|x l IH]; simpl; [done|].
    destruct (hit x) eqn:Ex; simpl.
    + by rewrite Hr.
    + rewrite Ex. simpl. by rewrite IH.
  - rewrite List.filter_app. simpl. rewrite Hr. simpl. by rewrite app_nil_r.
Qed.

Lemma upsert_tracking_keys (r : TrackingRow) (w : World) :
  NoDup (map trackingKey (api_rate_limit_tracking (db w))) ->
  NoDup (map trackingKey (api_rate_limit_tracking (db (snd (upsert_tracking r w))))).
Proof.
  intros U. unfold upsert_tracking. simpl.
  set (hit := tracking_matches (identifier r) (identifier_type r)).
  destruct (existsb hit (api_rate_limit_tracking (db w))) eqn:Ex.
  - replace (map trackingKey (map (fun x => if hit x then r else x)
                                  (api_rate_limit_tracking (db w))))
      with (map trackingKey (api_rate_limit_tracking (db w))); [done|].
    rewrite map_map. apply map_ext. intros x.
    destruct (hit x) eqn:E; [|done].
    apply tracking_matches_key in E. by rewrite E.
  - rewrite map_app. simpl. apply NoDup_app. split; [done|].
    split; [|apply NoDup_singleton].
    intros k Hk Hr. apply list_elem_of_singleton in Hr. subst k.
    apply list_elem_of_In, in_map_iff in Hk as (x & Kx & Hx).
    assert (hit x = true) as Hhit by (by apply tracking_matches_key).
    assert (existsb hit (api_rate_limit_tracking (db w)) = true)
      by (apply existsb_exists; eauto).
    congruence.
Qed.

Lemma single_row_of_unique_keys ident identType (rows : list TrackingRow) :
  NoDup (map trackingKey rows) ->
  (length (List.filter (tracking_matches ident identType) rows) <= 1)%nat.
Proof.
  induction rows as [|x l IH]; simpl; [lia|]. intros U.
  apply NoDup_cons in U as [Hx U].
  destruct (tracking_matches ident identType x) eqn:E; [|by apply IH].
  simpl. apply tracking_matches_key in E.
  assert (List.filter (tracking_matches ident identType) l = []) as ->; [|simpl; lia].
  destruct (List.filter (tracking_matches ident identType) l) as [|y t] eqn:F; [done|].
  exfalso. apply Hx.
  assert (In y (List.filter (tracking_matches ident identType) l)) as Hy
    by (rewrite F; by left).
  apply filter_In in Hy as [Hy My]. apply tracking_matches_key in My.
  rewrite E, <- My. apply list_elem_of_In, in_map, Hy.
Qed.

(** X3. A call that finds all three effective counts below their
    ceilings is allowed without retry-after or error code, reports the
    ceilings minus the counts after the increment (none negative), and
    leaves one row for the credential: the windows it computed, each count
    one higher, stamped with the fourth clock reading of the call.  The
    table keeps one row per identifier. *)
Theorem admitted_call_counts_once a p w :
  let o := fst (checkRateLimit_read a p w) in
  let r := fst (checkRateLimit a p w) in
  let w' := snd (checkRateLimit a p w) in
  NoDup (map trackingKey (api_rate_limit_tracking (db w))) ->
  minuteCount o < requests_per_minute (o_config o) ->
  hourCount o < requests_per_hour (o_config o) ->
  dayCount o < requests_per_day (o_config o) ->
  allowed r = true /\ retryAfter r = None /\ errorCode r = None
  /\ of_minute (remaining r) = requests_per_minute (o_config o) - (minuteCount o + 1)
  /\ of_hour (remaining r) = requests_per_hour (o_config o) - (hourCount o + 1)
  /\ of_day (remaining r) = requests_per_day (o_config o) - (dayCount o + 1)
  /\ 0 <= of_minute (remaining r) /\ 0 <= of_hour (remaining r)
  /\ 0 <= of_day (remaining r)
  /\ List.filter (tracking_matches a "api_key") (api_rate_limit_tracking (db w'))
     = [upsertedRow o (clock w (3 + ticks w)%nat)]
  /\ NoDup (map trackingKey (api_rate_limit_tracking (db w'))).
Proof.
  intros o r w' U Hm Hh Hd.
  assert (E : minuteExceeded o || hourExceeded o || dayExceeded o = false).
  { unfold minuteExceeded, hourExceeded, dayExceeded.
    by rewrite !(proj2 (Z.leb_gt _ _)) by done. }
  destruct (checkRateLimit_store a p w) as (_ & _ & _ & T).
  fold o w' in T. rewrite E in T.
  assert (Ha : o_identifier o = a).
  { unfold o. rewrite checkRateLimit_read_eq. simpl. by destruct (single _). }
  assert (R : r = fst (checkRateLimit_decide o (advance 3 w))).
  { unfold r. by rewrite checkRateLimit_unfold. }
  unfold checkRateLimit_decide in R. rewrite E in R. simpl in R.
  clearbody r. subst r. clearbody o w'. simpl. repeat split; try lia.
  - rewrite T, <- Ha.
    apply (upsert_tracking_filter (upsertedRow o (clock w (3 + ticks w)%nat)) w).
    by apply single_row_of_unique_keys.
  - rewrite T. by apply upsert_tracking_keys.
Qed.

(** X4. A counter whose minute window is older than the current one
    counts as zero for the minute, whatever it holds, while the hour and
    the day keep their counts: the call is allowed if those two are below
    their ceilings, and the row afterwards starts the new minute at one
    and has the hour and day counts one higher. *)
Theorem minute_window_rolls_over_alone a p w (t : TrackingRow) :
  let config := fst (getRateLimitConfig a p w) in
  let r := fst (checkRateLimit a p w) in
  let w' := snd (checkRateLimit a p w) in
  let mw := floorTo minute (clock w (ticks w)) in
  let hw := floorTo hour (clock w (S (ticks w))) in
  let dw := floorTo day (clock w (S (S (ticks w)))) in
  List.filter (tracking_matches a "api_key") (api_rate_limit_tracking (db w)) = [t] ->
  minute_window t < mw -> hw <= hour_window t -> dw <= day_window t ->
  0 < requests_per_minute config ->
  hour_count t < requests_per_hour config ->
  day_count t < requests_per_day config ->
  allowed r = true
  /\ of_minute (remaining r) = requests_per_minute config - 1
  /\ exists t',
       List.filter (tracking_matches a "api_key") (api_rate_limit_tracking (db w')) = [t']
       /\ minute_window t' = mw /\ minute_count t' = 1
       /\ hour_count t' = hour_count t + 1
       /\ day_count t' = day_count t + 1.
Proof.
  intros config r w' mw hw dw Ht Hm Hh Hd Cm Ch Cd.
  set (seen := {| o_identifier := a; o_config := config;
                  minuteWindow := mw; hourWindow := hw; dayWindow := dw;
                  minuteCount := 0; hourCount := hour_count t;
                  dayCount := day_count t |}).
  assert (O : fst (checkRateLimit_read a p w) = seen).
  { rewrite checkRateLimit_read_eq. cbv zeta. rewrite Ht. simpl.
    fold mw hw dw config.
    rewrite (proj2 (Z.ltb_lt _ _) Hm).
    by rewrite !(proj2 (Z.ltb_ge _ _)) by done. }
  assert (E : minuteExceeded seen || hourExceeded seen || dayExceeded seen = false).
  { unfold minuteExceeded, hourExceeded, dayExceeded. simpl.
    by rewrite !(proj2 (Z.leb_gt _ _)) by done. }
  destruct (checkRateLimit_store a p w) as (_ & _ & _ & T).
  fold w' in T. rewrite O, E in T.
  assert (R : r = fst (checkRateLimit_decide seen (advance 3 w))).
  { unfold r. by rewrite checkRateLimit_unfold, O. }
  unfold checkRateLimit_decide in R. rewrite E in R. simpl in R.
  clearbody r. subst r. simpl. repeat split; try lia.
  exists (upsertedRow seen (clock w (3 + ticks w)%nat)). split.
  - rewrite T.
    apply (upsert_tracking_filter (upsertedRow seen (clock w (3 + ticks w)%nat)) w).
    change (length (List.filter (tracking_matches a "api_key")
                      (api_rate_limit_tracking (db w))) <= 1)%nat.
    rewrite Ht. simpl. lia.
  - simpl. repeat split; lia.
Qed.

(** X5. [checkRateLimit] writes nothing but the counter of its own
    credential: keys, policies and audit rows are as before, the counter
    rows of every other identifier are as before, and a table with one row
    per identifier stays one. *)
Theorem call_touches_only_its_counter a p w :
  let w' := snd (checkRateLimit a p w) in
  api_keys (db w') = api_keys (db w)
  /\ api_rate_limit_config (db w') = api_rate_limit_config (db w)
  /\ api_request_logs (db w') = api_request_logs (db w)
  /\ List.filter (fun x => negb (tracking_matches a "api_key" x))
                 (api_rate_limit_tracking (db w'))
     = List.filter (fun x => negb (tracking_matches a "api_key" x))
                   (api_rate_limit_tracking (db w))
  /\ (NoDup (map trackingKey (api_rate_limit_tracking (db w))) ->
      NoDup (map trackingKey (api_rate_limit_tracking (db w')))).
Proof.
  intros w'. destruct (checkRateLimit_store a p w) as (K & C & L & T).
  fold w' in K, C, L, T.
  assert (Ha : o_identifier (fst (checkRateLimit_read a p w)) = a).
  { rewrite checkRateLimit_read_eq. simpl. by destruct (single _). }
  set (o := fst (checkRateLimit_read a p w)) in *.
  clearbody o w'.
  repeat split; try done.
  - rewrite T. destruct (_ || _); [done|].
    rewrite <- Ha.
    apply (upsert_tracking_others (upsertedRow o (clock w (3 + ticks w)%nat)) w).
  - intros U. rewrite T. destruct (_ || _); [done|].
    by apply upsert_tracking_keys.
Qed.

(** X6. On any policy table, the resolved limits are the default ones or
    those of a row of the table that is active and whose scope is the
    credential, the tenant or the global one: an inactive policy and a
    policy of another credential or tenant are never applied. *)
Theorem resolved_policy_is_active_or_default a p w :
  let config := fst (getRateLimitConfig a p w) in
  config = DEFAULT_LIMITS
  \/ exists row,
       In row (api_rate_limit_config (db w))
       /\ cfg_is_active row = true
       /\ cfg_limits row = config
       /\ (scopeKey row = ("api_key", Some a)
           \/ scopeKey row = ("professional", Some p)
           \/ scopeKey row = ("global", None)).
Proof.
  assert (S : forall scope target row,
            single (List.filter (config_matches scope target)
                                (api_rate_limit_config (db w))) = Some row ->
            In row (api_rate_limit_config (db w))
            /\ cfg_is_active row = true /\ scopeKey row = (scope, target)).
  { intros scope target row E.
    destruct (List.filter _ _) as [|x [|y l]] eqn:F; try discriminate.
    injection E as ->.
    assert (In row (List.filter (config_matches scope target)
                                (api_rate_limit_config (db w)))) as Hin
      by (rewrite F; by left).
    apply filter_In in Hin as [Hin M].
    apply config_matches_key in M as [K A]. done. }
  unfold getRateLimitConfig, bind, select_single, ret. simpl.
  destruct (single (List.filter (config_matches "api_key" _) _)) as [r1|] eqn:E1; simpl.
  { right. exists r1. destruct (S _ _ _ E1) as (? & ? & ?). eauto 10. }
  destruct (single (List.filter (config_matches "professional" _) _)) as [r2|] eqn:E2; simpl.
  { right. exists r2. destruct (S _ _ _ E2) as (? & ? & ?). eauto 10. }
  destruct (single (List.filter (config_matches "global" _) _)) as [r3|] eqn:E3; simpl.
  { right. exists r3. destruct (S _ _ _ E3) as (? & ? & ?). eauto 10. }
  by left.
Qed.
End MoreRateLimiterFacts.

Lemma retry_after_bounds_witness :
  exists retry,
    retryAfter (fst (@checkRateLimit utcRuntime "k1" "p1" dayBlockedWorld))
    = Some retry
    /\ 1 <= retry <= 86400.
Proof.
  apply (@retry_after_bounds utcRuntime "k1" "p1" dayBlockedWorld).
  - reflexivity.
  - vm_compute. split; [discriminate | reflexivity].
Defined.

Lemma admitted_call_counts_once_witness :
  allowed (fst (@checkRateLimit utcRuntime "k1" "p1" oneSlotWorld)) = true
  /\ of_minute (remaining (fst (@checkRateLimit utcRuntime "k1" "p1" oneSlotWorld)))
     = 0.
Proof.
  destruct (@admitted_call_counts_once utcRuntime "k1" "p1" oneSlotWorld)
    as (A & _ & _ & M & _).
  - apply NoDup_nil_2.
  - reflexivity.
  - reflexivity.
  - reflexivity.
  - exact (conj A M).
Defined.

Lemma minute_window_rolls_over_alone_witness :
  allowed (fst (@checkRateLimit utcRuntime "k1" "p1" nextMinuteWorld)) = true
  /\ of_minute (remaining (fst (@checkRateLimit utcRuntime "k1" "p1" nextMinuteWorld)))
     = 59.
Proof.
  destruct (@minute_window_rolls_over_alone utcRuntime "k1" "p1" nextMinuteWorld
              {| identifier := "k1"; identifier_type := "api_key";
                 minute_window := 0; minute_count := 60;
                 hour_window := 0; hour_count := 60;
                 day_window := 0; day_count := 60;
                 last_request_at := 0 |})
    as (A & M & _); try reflexivity; try (vm_compute; discriminate).
  exact (conj A M).
Defined.

Lemma call_touches_only_its_counter_witness :
  NoDup (map trackingKey
           (api_rate_limit_tracking
              (db (snd (@checkRateLimit utcRuntime "k2" "p2" nextMinuteWorld))))).
Proof.
  apply (@call_touches_only_its_counter utcRuntime "k2" "p2" nextMinuteWorld).
  apply (bool_decide_unpack _). vm_compute. exact I.
Defined.

(** ** More on the authenticator *)

Section MoreAuthFacts.
Context `{Runtime}.

(** What a call of [validateApiKey] can be, by the path it takes. *)
Lemma validateApiKey_cases (apiKey : string) (w : World) :
  let r := fst (validateApiKey apiKey w) in
  let w' := snd (validateApiKey apiKey w) in
  (isValid r = false /\ w' = w
   /\ (keyErrorCode r = Some "missing_api_key"
       \/ keyErrorCode r = Some "invalid_api_key_format"
       \/ keyErrorCode r = Some "invalid_api_key"
       \/ keyErrorCode r = Some "inactive_api_key"
       \/ keyErrorCode r = Some "revoked_api_key"))
  \/ exists c,
       List.filter (hasDigest (hashApiKey apiKey)) (api_keys (db w)) = [c]
       /\ matchesKeyFormat apiKey = true
       /\ key_is_active c = true /\ key_revoked_at c = None
       /\ ((exists e, key_expires_at c = Some e /\ e < clock w (ticks w)
            /\ isValid r = false /\ keyErrorCode r = Some "expired_api_key"
            /\ w' = snd (update_api_keys (key_id c) deactivate (advance 1 w)))
           \/ (isValid r = true
               /\ apiKeyId r = Some (key_id c)
               /\ professionalId r = Some (key_professional_id c)
               /\ keyErrorCode r = None
               /\ ((exists e, key_expires_at c = Some e /\ clock w (ticks w) <= e
                    /\ w' = snd (update_api_keys (key_id c)
                                   (touch (clock w (S (ticks w)))) (advance 2 w)))
                   \/ (key_expires_at c = None
                       /\ w' = snd (update_api_keys (key_id c)
                                      (touch (clock w (ticks w))) (advance 1 w)))))).
Proof.
  unfold validateApiKey.
  destruct (String.eqb apiKey ""); [left; simpl; auto 10|].
  destruct (matchesKeyFormat apiKey) eqn:F; simpl; [|left; auto 10].
  unfold bind, select_single.
  destruct (List.filter (hasDigest (hashApiKey apiKey)) (api_keys (db w)))
    as [|c [|c' l]] eqn:E; simpl; [left; auto 10| |left; auto 10].
  destruct (key_is_active c) eqn:A; simpl; [|left; auto 10].
  destruct (bool_decide (is_Some (key_revoked_at c))) eqn:R; simpl;
    [left; auto 10|].
  apply bool_decide_eq_false in R.
  assert (key_revoked_at c = None) as R'
    by (destruct (key_revoked_at c); [exfalso; apply R; eauto | done]).
  right. exists c. do 4 (split; [done|]).
  destruct (key_expires_at c) as [e|] eqn:X; simpl.
  - destruct (e <? clock w (ticks w)) eqn:L; simpl.
    + left. exists e. apply Z.ltb_lt in L. done.
    + right. apply Z.ltb_ge in L. repeat split; try done.
      left. exists e. done.
  - right. repeat split; try done. right. done.
Qed.

(** X7. [validateApiKey] accepts a key only if it has the format and
    exactly one credential of the store has its digest, and that
    credential is active, not revoked and not past its expiry at the
    reading of the clock; the identity it answers with is that of this
    credential. *)
Theorem accepted_key_is_live (apiKey : string) (w : World) :
  let r := fst (validateApiKey apiKey w) in
  isValid r = true ->
  matchesKeyFormat apiKey = true
  /\ exists c,
       List.filter (hasDigest (hashApiKey apiKey)) (api_keys (db w)) = [c]
       /\ key_is_active c = true
       /\ key_revoked_at c = None
       /\ (forall e, key_expires_at c = Some e -> clock w (ticks w) <= e)
       /\ apiKeyId r = Some (key_id c)
       /\ professionalId r = Some (key_professional_id c).
Proof.
  intros r V. subst r.
  destruct (validateApiKey_cases apiKey w)
    as [(V' & _)|(c & F & M & A & R & [(e & _ & _ & V' & _)|(_ & I & P & _ & X)])];
    try congruence.
  split; [done|]. exists c. repeat split; try done.
  intros e E. destruct X as [(e' & E' & L & _)|(E' & _)]; congruence.
Qed.

Lemma update_api_keys_store id f w :
  let w' := snd (update_api_keys id f w) in
  api_keys (db w')
  = map (fun r => if String.eqb (key_id r) id then f r else r) (api_keys (db w))
  /\ api_rate_limit_config (db w') = api_rate_limit_config (db w)
  /\ api_rate_limit_tracking (db w') = api_rate_limit_tracking (db w)
  /\ api_request_logs (db w') = api_request_logs (db w)
  /\ heap w' = heap w.
Proof. done. Qed.

(** X8. A rejection other than for expiry leaves the world as it was.  An
    acceptance changes nothing in the store but [last_used_at]: every
    credential keeps its id, tenant, digest, flags and times, the accepted
    credential is stamped with a reading of the clock taken during the
    call, credentials with another id are as before, and so are the other
    tables. *)
Theorem validation_writes_last_used_only (apiKey : string) (w : World) :
  let r := fst (validateApiKey apiKey w) in
  let w' := snd (validateApiKey apiKey w) in
  (isValid r = false -> keyErrorCode r <> Some "expired_api_key" -> w' = w)
  /\ (isValid r = true ->
      map lifecycle (api_keys (db w')) = map lifecycle (api_keys (db w))
      /\ (forall c, In c (api_keys (db w')) ->
            Some (key_id c) = apiKeyId r ->
            exists now, key_last_used_at c = Some now
                        /\ (now = clock w (ticks w)
                            \/ now = clock w (S (ticks w))))
      /\ (forall c, In c (api_keys (db w')) ->
            Some (key_id c) <> apiKeyId r -> In c (api_keys (db w)))
      /\ api_rate_limit_config (db w') = api_rate_limit_config (db w)
      /\ api_rate_limit_tracking (db w') = api_rate_limit_tracking (db w)
      /\ api_request_logs (db w') = api_request_logs (db w)).
Proof.
  intros r w'. subst r w'.
  destruct (validateApiKey_cases apiKey w)
    as [(V & W & _)|(c & F & M & A & R & [(e & _ & _ & V & C & _)|(V & I & P & _ & X)])].
  - split; [done|congruence].
  - split; [congruence|congruence].
  - split; [congruence|]. intros _.
    set (w' := snd (validateApiKey apiKey w)) in *.
    assert (exists now, (now = clock w (ticks w) \/ now = clock w (S (ticks w)))
              /\ api_keys (db w')
                 = map (fun r => if String.eqb (key_id r) (key_id c)
                                 then touch now r else r) (api_keys (db w))
              /\ api_rate_limit_config (db w') = api_rate_limit_config (db w)
              /\ api_rate_limit_tracking (db w') = api_rate_limit_tracking (db w)
              /\ api_request_logs (db w') = api_request_logs (db w))
      as (now & Hnow & K & C & T & L).
    { destruct X as [(e & _ & _ & W)|(_ & W)]; rewrite W;
        eexists; (split; [|done]); auto. }
    rewrite K, C, T, L, I. repeat split; try done.
    + rewrite map_map. apply map_ext. intros x.
      by destruct (String.eqb (key_id x) (key_id c)).
    + intros x Hin [= Hx]. apply in_map_iff in Hin as (y & <- & Hy).
      destruct (String.eqb (key_id y) (key_id c)) eqn:E.
      * exists now. done.
      * apply String.eqb_neq in E. done.
    + intros x Hin Hx. apply in_map_iff in Hin as (y & <- & Hy).
      destruct (String.eqb_spec (key_id y) (key_id c)) as [E|E]; [|done].
      exfalso. apply Hx. simpl. by rewrite E.
Qed.

(** X9. Once a key was accepted, a later call on the store that the
    first call left is accepted again with the same identity, unless the
    credential has expired by then: stamping [last_used_at] does not get
    in the way of the next lookup. *)
Theorem accepted_key_stays_accepted_until_expiry (apiKey : string) (w : World) :
  let r1 := fst (validateApiKey apiKey w) in
  let w1 := snd (validateApiKey apiKey w) in
  isValid r1 = true ->
  forall w2, api_keys (db w2) = api_keys (db w1) ->
    let r2 := fst (validateApiKey apiKey w2) in
    (isValid r2 = true /\ apiKeyId r2 = apiKeyId r1
     /\ professionalId r2 = professionalId r1)
    \/ (isValid r2 = false /\ keyErrorCode r2 = Some "expired_api_key").
Proof.
  intros r1 w1 V w2 E2 r2. subst r1 w1.
  destruct (validateApiKey_cases apiKey w)
    as [(V' & _)|(c & F & M & A & R & [(e & _ & _ & V' & _)|(_ & I & P & _ & X)])];
    try congruence.
  set (w1 := snd (validateApiKey apiKey w)) in *.
  assert (exists now, api_keys (db w1)
            = map (fun r => if String.eqb (key_id r) (key_id c)
                            then touch now r else r) (api_keys (db w)))
    as (now & K).
  { destruct X as [(e & _ & _ & W)|(_ & W)]; rewrite W;
      eexists; done. }
  assert (F2 : List.filter (hasDigest (hashApiKey apiKey)) (api_keys (db w2))
               = [touch now c]).
  { rewrite E2, K, filter_map_stable, F.
    - simpl. by rewrite String.eqb_refl.
    - intros x. by destruct (String.eqb (key_id x) (key_id c)). }
  assert (Hne : apiKey <> "") by (intros ->; discriminate).
  subst r2. rewrite I, P. clearbody w1. unfold validateApiKey.
  rewrite (proj2 (String.eqb_neq _ _) Hne), M. simpl.
  unfold bind, select_single. rewrite F2. simpl. rewrite A, R. simpl.
  destruct (key_expires_at c) as [e|]; simpl.
  - destruct (e <? clock w2 (ticks w2)); simpl; [right; done|left; done].
  - left. done.
Qed.
End MoreAuthFacts.

Lemma accepted_key_is_live_witness :
  exists c,
    List.filter (hasDigest (@hashApiKey utcRuntime sampleKey))
                (api_keys (db liveKeyWorld)) = [c]
    /\ key_is_active c = true.
Proof.
  destruct (@accepted_key_is_live utcRuntime sampleKey liveKeyWorld eq_refl)
    as (_ & c & F & A & _).
  exists c. exact (conj F A).
Defined.

Lemma validation_writes_last_used_only_witness :
  snd (@validateApiKey utcRuntime "not a key" liveKeyWorld) = liveKeyWorld.
Proof.
  apply (proj1 (@validation_writes_last_used_only utcRuntime "not a key"
                  liveKeyWorld)).
  - reflexivity.
  - discriminate.
Defined.

Lemma accepted_key_stays_accepted_until_expiry_witness :
  isValid (fst (@validateApiKey utcRuntime sampleKey
                  (snd (@validateApiKey utcRuntime sampleKey liveKeyWorld))))
  = true.
Proof.
  destruct (@accepted_key_stays_accepted_until_expiry utcRuntime sampleKey
              liveKeyWorld eq_refl _ eq_refl) as [(V & _)|(V & _)].
  - exact V.
  - discriminate V.
Defined.

(** ** The format of a key *)

Lemma prefix_split (p s : string) :
  String.prefix p s = true -> s = p +:+ string_drop (String.length p) s.
Proof.
  revert s. induction p as [|c p IH]; intros s Hp.
  - unfold string_drop. simpl. rewrite Nat.sub_0_r. by rewrite substring_all.
  - destruct s as [|d s]; simpl in Hp; [discriminate|].
    destruct (Ascii.ascii_dec c d) as [->|]; [|discriminate].
    rewrite (IH s Hp) at 1. unfold string_drop. simpl. done.
Qed.

Lemma prefix_append (p s : string) : String.prefix p (p +:+ s) = true.
Proof.
  induction p as [|c p IH]; simpl; [by destruct s|].
  by destruct (Ascii.ascii_dec c c).
Qed.

Lemma string_drop_append (p s : string) :
  string_drop (String.length p) (p +:+ s) = s.
Proof.
  unfold string_drop. rewrite length_append.
  replace (String.length p + String.length s - String.length p)%nat
    with (String.length s) by lia.
  rewrite substring_append_r. apply substring_all.
Qed.

(** The format check, by its three parts. *)
Lemma matchesKeyFormat_parts (apiKey : string) :
  matchesKeyFormat apiKey = true
  <-> exists suffix,
        apiKey = "ofair_pk_" +:+ suffix
        /\ String.length suffix = 32%nat
        /\ Forall (fun c => isAlnum c = true) (list_ascii_of_string suffix).
Proof.
  unfold matchesKeyFormat. rewrite !andb_true_iff, Nat.eqb_eq, forallb_forall.
  split.
  - intros (P & L & A). exists (string_drop 9 apiKey).
    split; [exact (prefix_split "ofair_pk_" apiKey P)|].
    split; [done|]. apply List.Forall_forall. done.
  - intros (suffix & -> & L & A).
    pose proof (string_drop_append "ofair_pk_" suffix) as D.
    change (String.length "ofair_pk_") with 9%nat in D. rewrite D.
    split; [apply prefix_append|]. split; [done|].
    by apply List.Forall_forall.
Qed.

(** The character class of the format, checked on all 256 characters: the
    comparisons of character codes accept a character exactly when it is
    one of the 62 letters and digits. *)
Lemma isAlnum_alphanumerics (c : ascii) :
  isAlnum c = true <-> In c alphanumerics.
Proof.
  assert (E : isAlnum c = existsb (Ascii.eqb c) alphanumerics)
    by (destruct c as [[] [] [] [] [] [] [] []]; reflexivity).
  rewrite E, existsb_exists. split.
  - intros (d & I & Q). apply Ascii.eqb_eq in Q. by subst.
  - intros I. exists c. split; [done|apply Ascii.eqb_refl].
Qed.

(** X10. The format check accepts exactly the strings made of the
    prefix [ofair_pk_] and 32 characters, each of them one of the 62
    characters
    [ABCDEFGHIJKLMNOPQRSTUVWXYZabcdefghijklmnopqrstuvwxyz0123456789];
    such a string is 41 characters long. *)
Theorem key_format_shape (apiKey : string) :
  matchesKeyFormat apiKey = true
  <-> exists suffix,
        apiKey = "ofair_pk_" +:+ suffix
        /\ String.length suffix = 32%nat
        /\ String.length apiKey = 41%nat
        /\ forall c, In c (list_ascii_of_string suffix) ->
             In c (list_ascii_of_string
                     "ABCDEFGHIJKLMNOPQRSTUVWXYZabcdefghijklmnopqrstuvwxyz0123456789").
Proof.
  rewrite matchesKeyFormat_parts. split.
  - intros (suffix & -> & L & A). exists suffix.
    split; [done|]. split; [done|].
    split; [by rewrite length_append, L|].
    intros c I. apply isAlnum_alphanumerics.
    rewrite List.Forall_forall in A. by apply A.
  - intros (suffix & -> & L & _ & A). exists suffix.
    split; [done|]. split; [done|]. apply List.Forall_forall.
    intros c I. apply isAlnum_alphanumerics. by apply A.
Qed.

Lemma get_in (s : string) : forall n c,
  String.get n s = Some c -> In c (list_ascii_of_string s).
Proof.
  induction s as [|d s IH]; intros n c; simpl; [discriminate|].
  destruct n as [|n]; [intros [= ->]; by left|].
  intros E. right. by apply (IH n).
Qed.

Lemma get_lt (s : string) : forall n,
  (n < String.length s)%nat -> exists c, String.get n s = Some c.
Proof.
  induction s as [|d s IH]; intros n; simpl; [lia|].
  destruct n as [|n]; [eauto|]. intros L. apply IH. lia.
Qed.

Lemma append_empty_r (s : string) : s +:+ "" = s.
Proof.
  induction s as [|c s IH]; [done|].
  change (String c (s +:+ "") = String c s). by rewrite IH.
Qed.

Lemma concat_empty_cons (x : string) (l : list string) :
  String.concat "" (x :: l) = x +:+ String.concat "" l.
Proof.
  destruct l as [|y l]; [|reflexivity].
  change (x = x +:+ ""). by rewrite append_empty_r.
Qed.

Lemma randomPart_cons (byte : nat) (bytes : list nat) :
  exists c, isAlnum c = true
            /\ randomPart (byte :: bytes) = String c (randomPart bytes).
Proof.
  assert (Hlt : (byte mod String.length charset < String.length charset)%nat)
    by (apply Nat.mod_upper_bound; discriminate).
  destruct (get_lt charset _ Hlt) as [c E].
  exists c. split.
  - apply get_in in E.
    assert (A : forallb isAlnum (list_ascii_of_string charset) = true)
      by reflexivity.
    rewrite forallb_forall in A. by apply A.
  - unfold randomPart. cbn [map]. by rewrite concat_empty_cons, E.
Qed.

(** X11. Whatever 32 bytes the random source gives, the key that
    [generateApiKey] makes of them is 41 characters long and passes the
    format check of [validateApiKey]. *)
Theorem generated_key_has_the_format (bytes : list nat) :
  length bytes = 32%nat ->
  matchesKeyFormat (fullKey bytes) = true
  /\ String.length (fullKey bytes) = 41%nat.
Proof.
  intros L.
  assert (S : String.length (randomPart bytes) = length bytes
              /\ Forall (fun c => isAlnum c = true)
                        (list_ascii_of_string (randomPart bytes))).
  { clear L. induction bytes as [|b bs [IHl IHa]]; [by split|].
    destruct (randomPart_cons b bs) as (c & A & ->). simpl.
    split; [by rewrite IHl|]. by constructor. }
  destruct S as [Sl Sa]. split.
  - apply matchesKeyFormat_parts. exists (randomPart bytes).
    split; [done|]. split; [congruence|done].
  - unfold fullKey. rewrite length_append, Sl, L. done.
Qed.

Lemma key_format_shape_witness :
  matchesKeyFormat sampleKey = true
  /\ matchesKeyFormat "ofair_pk_ABCDEFGHIJKLMNOPQRSTUVWXYZabcde_" <> true.
Proof.
  split.
  - apply (proj2 (key_format_shape sampleKey)).
    exists "ABCDEFGHIJKLMNOPQRSTUVWXYZabcdef".
    split; [reflexivity|]. split; [reflexivity|]. split; [reflexivity|].
    intros c I. apply isAlnum_alphanumerics.
    assert (F : forallb isAlnum
                  (list_ascii_of_string "ABCDEFGHIJKLMNOPQRSTUVWXYZabcdef")
                = true) by reflexivity.
    rewrite forallb_forall in F. by apply F.
  - intros M.
    destruct (proj1 (key_format_shape _) M) as (suffix & E & _ & _ & A).
    cbn in E. injection E as E.
    change ("" +:+ suffix) with suffix in E. subst suffix.
    assert (U : In "_"%char alphanumerics)
      by (apply A; do 31 right; by left).
    apply isAlnum_alphanumerics in U. discriminate U.
Defined.

Lemma generated_key_has_the_format_witness :
  matchesKeyFormat (fullKey (repeat 200%nat 32)) = true.
Proof.
  apply (generated_key_has_the_format (repeat 200%nat 32)). reflexivity.
Defined.

(** ** Revoking a key *)

Section KeyManagementFacts.
Context `{Collaborators}.

(** The two ways a call of the handler can end. *)
Lemma revokeApiKey_cases (tokens : list AuthTokenRow) (req : Request) (w : World) :
  let resp := fst (revokeApiKey tokens req w) in
  let w' := snd (revokeApiKey tokens req w) in
  (status resp <> 200 /\ db w' = db w /\ heap w' = heap w)
  \/ exists tok keyId c,
       status resp = 200
       /\ presentedToken req = Some (tok_token tok)
       /\ List.filter (fun t => String.eqb (tok_token t) (tok_token tok)
                                && tok_is_active t) tokens = [tok]
       /\ In tok tokens /\ tok_is_active tok = true
       /\ clock w (ticks w) <= tok_expires_at tok
       /\ namedKeyId req = Some keyId
       /\ List.filter (fun r => String.eqb (key_id r) keyId) (api_keys (db w)) = [c]
       /\ key_professional_id c = tok_professional_id tok
       /\ key_is_active c = true
       /\ w' = snd (update_api_keys keyId (revoke (clock w (S (ticks w))))
                      (advance 2 w)).
Proof.
  unfold revokeApiKey, presentedToken, namedKeyId.
  destruct (truthy _) as [token|]; [|left; done].
  destruct (List.filter _ tokens) as [|tok [|tok' l]] eqn:Ft; simpl;
    [left; done| |left; done].
  assert (Hin : In tok (List.filter
            (fun t => String.eqb (tok_token t) token && tok_is_active t) tokens))
    by (rewrite Ft; by left).
  apply filter_In in Hin as [Hin Htok].
  apply andb_true_iff in Htok as [Etok Atok]. apply String.eqb_eq in Etok.
  unfold bind, newDate. simpl.
  destruct (tok_expires_at tok <? clock w (ticks w)) eqn:X; simpl; [left; done|].
  apply Z.ltb_ge in X.
  destruct (json req) as [body|]; [|left; done].
  destruct (falsy (body !! "key_id")); [left; done|].
  unfold select_single, bind. simpl.
  set (keyId := jsToString (default JsNull (body !! "key_id"))).
  destruct (List.filter (fun r => String.eqb (key_id r) keyId) (api_keys (db w)))
    as [|c [|c' l']] eqn:Fk; simpl; [left; done| |left; done].
  destruct (String.eqb_spec (key_professional_id c) (tok_professional_id tok))
    as [P|P]; simpl; [|left; done].
  destruct (key_is_active c) eqn:A; simpl; [|left; done].
  right. exists tok, keyId, c. subst token. done.
Qed.

Lemma update_spares (q : ApiKeyRow -> bool) (id : string) (f : ApiKeyRow -> ApiKeyRow)
    (keys : list ApiKeyRow) :
  (forall r, In r keys -> String.eqb (key_id r) id = true -> q r = false) ->
  (forall r, q r = false -> q (f r) = false) ->
  List.filter q (map (fun r => if String.eqb (key_id r) id then f r else r) keys)
  = List.filter q keys.
Proof.
  intros Hid Hf. induction keys as [|r l IH]; simpl; [done|].
  rewrite IH by (intros; apply Hid; [by right|done]).
  destruct (String.eqb (key_id r) id) eqn:E; [|done].
  rewrite (Hid r (or_introl eq_refl) E), (Hf r (Hid r (or_introl eq_refl) E)).
  done.
Qed.

Lemma only_row_with_id (keyId : string) (keys : list ApiKeyRow) (c r : ApiKeyRow) :
  List.filter (fun r => String.eqb (key_id r) keyId) keys = [c] ->
  In r keys -> String.eqb (key_id r) keyId = true -> r = c.
Proof.
  intros F Hin E.
  assert (In r (List.filter (fun r => String.eqb (key_id r) keyId) keys)) as Hr
    by (apply filter_In; done).
  rewrite F in Hr. by destruct Hr as [<-|[]].
Qed.

(** X12. Whatever the request, the revoke handler changes no credential of
    a tenant other than the one the presented token belongs to, and no
    other table. *)
Theorem revocation_spares_other_tenants
    (tokens : list AuthTokenRow) (req : Request) (w : World) (tenant : string) :
  (forall t, In t tokens -> tok_is_active t = true ->
             presentedToken req = Some (tok_token t) ->
             tok_professional_id t = tenant) ->
  let w' := snd (revokeApiKey tokens req w) in
  List.filter (fun r => negb (String.eqb (key_professional_id r) tenant))
              (api_keys (db w'))
  = List.filter (fun r => negb (String.eqb (key_professional_id r) tenant))
                (api_keys (db w))
  /\ api_rate_limit_config (db w') = api_rate_limit_config (db w)
  /\ api_rate_limit_tracking (db w') = api_rate_limit_tracking (db w)
  /\ api_request_logs (db w') = api_request_logs (db w).
Proof.
  intros Hown w'. subst w'.
  destruct (revokeApiKey_cases tokens req w)
    as [(_ & -> & _)|(tok & keyId & c & _ & Pt & _ & Hin & At & _ & _ & Fk & Pc & _ & ->)];
    [done|].
  repeat split; try done. simpl.
  apply update_spares.
  - intros r Hr E. rewrite (only_row_with_id keyId _ c r Fk Hr E).
    rewrite Pc, (Hown tok Hin At Pt). by rewrite String.eqb_refl.
  - intros r Q. done.
Qed.
End KeyManagementFacts.

Section RevokedKeys.
Context `{Runtime} `{Collaborators}.

(** X13. After a revocation has succeeded, the key of the revoked
    credential is turned down by [validateApiKey] on the store the handler
    left, and as inactive: the revocation time is set on the credential,
    but the active flag is looked at first. *)
Theorem revoked_key_is_turned_down_as_inactive
    (tokens : list AuthTokenRow) (req : Request) (w : World)
    (apiKey : string) (c : ApiKeyRow) :
  status (fst (revokeApiKey tokens req w)) = 200 ->
  matchesKeyFormat apiKey = true ->
  List.filter (hasDigest (hashApiKey apiKey)) (api_keys (db w)) = [c] ->
  namedKeyId req = Some (key_id c) ->
  forall w2, api_keys (db w2) = api_keys (db (snd (revokeApiKey tokens req w))) ->
    isValid (fst (validateApiKey apiKey w2)) = false
    /\ keyErrorCode (fst (validateApiKey apiKey w2)) = Some "inactive_api_key"
    /\ exists c', List.filter (hasDigest (hashApiKey apiKey)) (api_keys (db w2)) = [c']
                  /\ key_is_active c' = false /\ is_Some (key_revoked_at c').
Proof.
  intros S200 M F N w2 E2.
  destruct (revokeApiKey_cases tokens req w)
    as [(S & _)|(tok & keyId & c0 & _ & _ & _ & _ & _ & _ & N' & _ & _ & _ & W)];
    [done|].
  rewrite N in N'. injection N' as <-.
  assert (F2 : List.filter (hasDigest (hashApiKey apiKey)) (api_keys (db w2))
               = [revoke (clock w (S (ticks w))) c]).
  { rewrite E2, W. simpl. rewrite filter_map_stable, F.
    - simpl. by rewrite String.eqb_refl.
    - intros x. by destruct (String.eqb (key_id x) (key_id c)). }
  assert (Hne : apiKey <> "") by (intros ->; discriminate).
  unfold validateApiKey.
  rewrite (proj2 (String.eqb_neq _ _) Hne), M. simpl.
  unfold bind, select_single. rewrite F2. simpl.
  repeat split. eexists. split; [done|]. simpl. eauto.
Qed.

End RevokedKeys.

Section SecondRevocation.
Context `{Collaborators}.

(** X14. The same revocation request, made again on the store a
    successful one left, is refused with 400 (or with 401 when the token
    has expired meanwhile) and changes nothing. *)
Theorem second_revocation_is_refused
    (tokens : list AuthTokenRow) (req : Request) (w : World) :
  status (fst (revokeApiKey tokens req w)) = 200 ->
  forall w2, api_keys (db w2) = api_keys (db (snd (revokeApiKey tokens req w))) ->
    (status (fst (revokeApiKey tokens req w2)) = 400
     \/ status (fst (revokeApiKey tokens req w2)) = 401)
    /\ db (snd (revokeApiKey tokens req w2)) = db w2.
Proof.
  intros S200 w2 E2.
  destruct (revokeApiKey_cases tokens req w)
    as [(S & _)|(tok & keyId & c & _ & Pt & Ft & _ & _ & _ & N & Fk & Pc & _ & W)];
    [done|].
  assert (F2 : List.filter (fun r => String.eqb (key_id r) keyId) (api_keys (db w2))
               = [revoke (clock w (S (ticks w))) c]).
  { rewrite E2, W. simpl. rewrite filter_map_stable, Fk.
    - simpl.
      assert (String.eqb (key_id c) keyId = true) as ->; [|done].
      assert (In c (List.filter (fun r => String.eqb (key_id r) keyId)
                                (api_keys (db w)))) as Hc
        by (rewrite Fk; by left).
      by apply filter_In in Hc as [_ ?].
    - intros x. destruct (String.eqb (key_id x) keyId) eqn:E; [|done].
      simpl. done. }
  unfold presentedToken in Pt. unfold namedKeyId in N.
  unfold revokeApiKey. rewrite Pt, Ft. simpl.
  unfold bind, newDate. simpl.
  destruct (tok_expires_at tok <? clock w2 (ticks w2)); simpl; [auto|].
  destruct (json req) as [body|]; [|discriminate].
  destruct (falsy (body !! "key_id")); [discriminate|].
  injection N as N. rewrite N.
  unfold select_single. simpl. rewrite F2. simpl.
  rewrite Pc, String.eqb_refl. simpl. auto.
Qed.
End SecondRevocation.

Lemma revocation_spares_other_tenants_witness :
  List.filter (fun r => negb (String.eqb (key_professional_id r) "p1"))
    (api_keys (db (snd (@revokeApiKey acceptingCollaborators sampleTokens
                          revokeRequest liveKeyWorld))))
  = List.filter (fun r => negb (String.eqb (key_professional_id r) "p1"))
      (api_keys (db liveKeyWorld)).
Proof.
  apply (@revocation_spares_other_tenants acceptingCollaborators sampleTokens
           revokeRequest liveKeyWorld "p1").
  intros t [<-|[]] _ _. reflexivity.
Defined.

Lemma revoked_key_is_turned_down_as_inactive_witness :
  keyErrorCode
    (fst (@validateApiKey utcRuntime sampleKey
            (snd (@revokeApiKey acceptingCollaborators sampleTokens
                    revokeRequest liveKeyWorld))))
  = Some "inactive_api_key".
Proof.
  destruct (@revoked_key_is_turned_down_as_inactive utcRuntime
              acceptingCollaborators sampleTokens revokeRequest liveKeyWorld
              sampleKey liveCredential eq_refl eq_refl eq_refl eq_refl
              _ eq_refl) as (_ & E & _).
  exact E.
Defined.

Lemma second_revocation_is_refused_witness :
  status (fst (@revokeApiKey acceptingCollaborators sampleTokens revokeRequest
                 (snd (@revokeApiKey acceptingCollaborators sampleTokens
                         revokeRequest liveKeyWorld)))) = 400.
Proof.
  destruct (@second_revocation_is_refused acceptingCollaborators sampleTokens
              revokeRequest liveKeyWorld eq_refl _ eq_refl) as ([E|E] & _).
  - exact E.
  - discriminate E.
Defined.

(** ** More on the handler *)

Section MorePipelineFacts.
Context `{Runtime} `{Collaborators}.

Lemma literal_lookup_skip (k k' : string) (o : option JsValue) rest :
  k <> k' -> literal ((k', o) :: rest) !! k = literal rest !! k.
Proof.
  intros Hne. destruct o; simpl; [|done]. by rewrite lookup_insert_ne.
Qed.

Lemma literal_lookup_here (k : string) (v : JsValue) rest :
  literal ((k, Some v) :: rest) !! k = Some v.
Proof. simpl. apply lookup_insert_eq. Qed.

Lemma header_last (name value : string) (hs : list (string * string)) :
  header name (hs ++ [(name, value)]) = Some value.
Proof.
  unfold header. rewrite rev_app_distr. simpl. by rewrite String.eqb_refl.
Qed.

Lemma finalizeRequest_row context response :
  emits (finalizeRequest context response)
        (fun _ rows => exists row,
           rows = [row]
           /\ log_response_status row = fin_status response
           /\ log_request_id row = requestId context
           /\ (requestBody context = None -> log_request_body row = None)
           /\ (log_request_body row = None
               \/ exists fields,
                    log_request_body row = Some (sanitizedFields fields))).
Proof.
  intros w. unfold finalizeRequest, bind, newDate.
  destruct (requestBody context) as [b|].
  - rewrite sanitizeRequestBody_copy. simpl. eexists. split; [reflexivity|].
    eexists. repeat split; [done|]. right. eexists.
    unfold fieldsOf. simpl. by rewrite lookup_insert_eq.
  - simpl. eexists. split; [reflexivity|]. eexists. repeat split; auto.
Qed.

Lemma denied_has_retry_after a p w :
  allowed (fst (checkRateLimit a p w)) = false ->
  exists retry, retryAfter (fst (checkRateLimit a p w)) = Some retry.
Proof.
  rewrite checkRateLimit_unfold.
  set (o := fst (checkRateLimit_read a p w)).
  destruct (minuteExceeded o || hourExceeded o || dayExceeded o) eqn:E.
  - destruct (decide_denied o (advance 3 w) E) as (_ & R & _). eauto.
  - destruct (decide_allowed o (advance 3 w) E) as (A & _). congruence.
Qed.

Lemma emits_bind_quiet {A B} (m : M A) (k : A -> M B) (P : A -> Prop)
    (Q : B -> list LogRow -> Prop) :
  emits m (fun a rows => rows = [] /\ P a) ->
  (forall a, P a -> emits (k a) Q) ->
  emits (bind m k) Q.
Proof.
  intros Hm Hk. apply (emits_bind _ _ _ _ Hm).
  intros a rows1 [-> Pa]. apply (Hk a Pa).
Qed.

Lemma checkRateLimit_emits a p :
  emits (checkRateLimit a p)
        (fun r rows => rows = []
                       /\ (allowed r = false ->
                           exists retry, retryAfter r = Some retry)).
Proof.
  intros w. destruct (checkRateLimit_silent a p w) as (rows & E & ->).
  exists []. split; [done|]. split; [done|]. apply denied_has_retry_after.
Qed.

Lemma finalize_then_return context fin response ctx' id :
  fin_status fin = status response ->
  requestId context = id ->
  (exists body, resp_body response = Some body
                /\ body !! "request_id" = Some (JsString id)) ->
  (status response = 401 \/ status response = 405 \/ status response = 429 ->
   requestBody context = None) ->
  (status response = 429 ->
   exists retry body,
     header "Retry-After" (resp_headers response) = Some (String_of retry)
     /\ resp_body response = Some body
     /\ body !! "retry_after" = Some (JsNumber retry)) ->
  status response <> 500 ->
  emits (let* _ := finalizeRequest context fin in ret (Ok response, ctx'))
        (leftTryAudited id).
Proof.
  intros St Id Body Nb Retry N5.
  eapply emits_bind; [apply finalizeRequest_row|].
  intros ? ? (row & -> & St' & Id' & Nb' & Sb). apply emits_ret.
  unfold leftTryAudited. simpl. exists row. split; [done|]. split; [|done].
  unfold audited. repeat split; try done; try congruence.
  intros Hs. apply Nb', Nb, Hs.
Qed.

Ltac request_id_in_body :=
  eexists; split; [reflexivity|];
  rewrite ?literal_lookup_skip by done; apply literal_lookup_here.

Ltac audit_and_return Hnone :=
  apply finalize_then_return;
  [ reflexivity | reflexivity | request_id_in_body
  | first [ intros _; exact Hnone
          | intros [?|[?|?]]; simpl in *; discriminate ]
  | try (simpl; discriminate) | simpl; discriminate ].

Lemma tryBlock_audit req context :
  requestBody context = None ->
  (forall p b, silent (submitLead p b)) ->
  emits (tryBlock req context) (leftTryAudited (requestId context)).
Proof.
  intros Hnone Hsub. unfold tryBlock.
  destruct (negb (String.eqb (method req) "POST")); [audit_and_return Hnone|].
  destruct (extractApiKey req) as [apiKey|]; [|audit_and_return Hnone].
  apply silent_bind; [apply validateApiKey_silent|]. intros keyValidation.
  destruct (negb (isValid keyValidation)); [audit_and_return Hnone|].
  eapply emits_bind_quiet; [apply checkRateLimit_emits|].
  intros rateLimitResult Hretry. cbv beta.
  destruct (negb (allowed rateLimitResult)) eqn:Hdenied.
  { apply negb_true_iff in Hdenied. destruct (Hretry Hdenied) as [retry Er].
    rewrite Er. audit_and_return Hnone. intros _.
    exists retry. eexists. split; [|split; [reflexivity|]].
    - cbn [resp_headers].
      match goal with |- header _ (?a ++ ?b ++ [?x; ?y]) = _ =>
        change (a ++ b ++ [x; y]) with (a ++ b ++ [x] ++ [y]) end.
      rewrite !app_assoc. apply header_last.
    - rewrite !literal_lookup_skip by done. apply literal_lookup_here. }
  destruct (json req) as [parsed|]; [|audit_and_return Hnone].
  apply silent_bind; [apply allocate_silent|]. intros requestBody.
  apply silent_bind; [apply Hsub|]. intros [result|message].
  - destruct (negb (success result)); audit_and_return Hnone.
  - by apply emits_ret.
Qed.

Lemma serve_is_attempt (req : Request) (w : World) :
  method req <> "OPTIONS" ->
  fst (getSupabaseClient w) = Ok tt ->
  serve req w = attempt req w.
Proof.
  intros Hm Hc. unfold serve.
  rewrite (proj2 (String.eqb_neq _ _) Hm). unfold bind.
  assert (Hw : snd (getSupabaseClient w) = w).
  { unfold getSupabaseClient. by destruct (_ || _). }
  destruct (getSupabaseClient w) as [client w1]; simpl in Hc, Hw.
  by subst.
Qed.

Lemma serve_audit (req : Request) (w : World) :
  method req <> "OPTIONS" ->
  fst (getSupabaseClient w) = Ok tt ->
  (forall p b, silent (submitLead p b)) ->
  exists response row,
    fst (serve req w) = Returned response
    /\ logs (snd (serve req w)) = logs w ++ [row]
    /\ audited (uuids w (uuid_next w)) response row.
Proof.
  intros Hm Hc Hsub. rewrite (serve_is_attempt req w Hm Hc).
  unfold attempt. unfold bind at 1.
  change (createRequestContext req "/submit-lead-api" w)
    with ({| requestId := uuids w (uuid_next w);
             startTime := clock w (ticks w);
             ctx_apiKeyId := None; ctx_professionalId := None;
             endpoint := "/submit-lead-api"; ctx_method := method req;
             requestBody := None; clientIp := extractClientIp req |},
          advance 1 (snd (randomUUID w))).
  cbv iota beta.
  set (context := {| requestId := uuids w (uuid_next w) |}).
  set (w1 := advance 1 (snd (randomUUID w))).
  assert (E : emits
    (let* tried := tryBlock req context in
     match tried with
     | (Ok response, _) => ret (Returned response)
     | (Throw message, context0) =>
       let response :=
         literal [("error", str "internal_error");
                  ("message", str "An unexpected error occurred");
                  ("request_id", str (requestId context0))] in
       let* _ :=
         finalizeRequest context0
           {| fin_status := 500; fin_body := Some response; fin_leadId := None;
              fin_errorCode := Some "internal_error";
              fin_errorMessage := Some message |} in
       ret (Returned {| status := 500; resp_headers := jsonHeaders corsHeaders;
                        resp_body := Some response |})
     end)
    (fun out rows => exists response row,
       out = Returned response /\ rows = [row]
       /\ audited (requestId context) response row)).
  { eapply emits_bind; [by apply tryBlock_audit|].
    intros [[response|message] context'] rows1; unfold leftTryAudited; simpl.
    - intros (row & -> & A & _). apply emits_ret. eauto.
    - intros [-> Id]. eapply emits_bind; [apply finalizeRequest_row|].
      intros ? ? (row & -> & St & Id' & _ & Sb). apply emits_ret. simpl.
      eexists _, row. split; [reflexivity|]. split; [done|].
      unfold audited. simpl. repeat split; try done; try congruence.
      + rewrite Id. eexists. split; [reflexivity|].
        rewrite !lookup_insert_ne by done. apply lookup_insert_eq.
      + intros [?|[?|?]]; done. }
  destruct (E w1) as (rows & L & response & row & Eo & -> & A).
  exists response, row. split; [exact Eo|]. split; [exact L|exact A].
Qed.

(** X15. Every response of the handler, errors included, carries in its
    body the request id that was drawn when the call came in, and the
    audit row of the call carries the same id. *)
Theorem response_and_audit_row_share_the_request_id (req : Request) (w : World) :
  method req <> "OPTIONS" ->
  fst (getSupabaseClient w) = Ok tt ->
  (forall p b, silent (submitLead p b)) ->
  exists response row body,
    fst (serve req w) = Returned response
    /\ logs (snd (serve req w)) = logs w ++ [row]
    /\ resp_body response = Some body
    /\ body !! "request_id" = Some (JsString (uuids w (uuid_next w)))
    /\ log_request_id row = uuids w (uuid_next w).
Proof.
  intros Hm Hc Hsub.
  destruct (serve_audit req w Hm Hc Hsub)
    as (response & row & E & L & _ & Id & (body & B & Rid) & _).
  exists response, row, body. done.
Qed.

(** X16. The request body in the audit row never has a [password],
    [token] or [api_key] field; and for a request turned down with 401,
    405 or 429 no request body is logged at all, since the body is read
    only after the rate limiter. *)
Theorem audit_row_holds_no_secret_field (req : Request) (w : World) :
  method req <> "OPTIONS" ->
  fst (getSupabaseClient w) = Ok tt ->
  (forall p b, silent (submitLead p b)) ->
  exists response row,
    fst (serve req w) = Returned response
    /\ logs (snd (serve req w)) = logs w ++ [row]
    /\ (forall body, log_request_body row = Some body ->
          body !! "password" = None /\ body !! "token" = None
          /\ body !! "api_key" = None)
    /\ (status response = 401 \/ status response = 405 \/ status response = 429 ->
        log_request_body row = None).
Proof.
  intros Hm Hc Hsub.
  destruct (serve_audit req w Hm Hc Hsub)
    as (response & row & E & L & _ & _ & _ & Sb & Nb & _).
  exists response, row. split; [done|]. split; [done|]. split; [|done].
  intros logged Eb. destruct Sb as [Sb|(fields & Sb)]; [congruence|].
  rewrite Sb in Eb. injection Eb as <-. apply sanitizedFields_removed.
Qed.

(** X17. A 429 response has a [Retry-After] header, and it says the same
    number of seconds as [retry_after] in the body. *)
Theorem retry_after_header_matches_body (req : Request) (w : World) (response : Response) :
  method req <> "OPTIONS" ->
  fst (getSupabaseClient w) = Ok tt ->
  (forall p b, silent (submitLead p b)) ->
  fst (serve req w) = Returned response ->
  status response = 429 ->
  exists retry body,
    header "Retry-After" (resp_headers response) = Some (String_of retry)
    /\ resp_body response = Some body
    /\ body !! "retry_after" = Some (JsNumber retry).
Proof.
  intros Hm Hc Hsub E S429.
  destruct (serve_audit req w Hm Hc Hsub)
    as (response' & row & E' & _ & _ & _ & _ & _ & _ & R).
  rewrite E in E'. injection E' as <-. by apply R.
Qed.
End MorePipelineFacts.

Lemma response_and_audit_row_share_the_request_id_witness :
  exists response row body,
    fst (@serve utcRuntime acceptingCollaborators leadRequest liveKeyWorld)
    = Returned response
    /\ resp_body response = Some body
    /\ body !! "request_id" = Some (JsString "req-0")
    /\ log_request_id row = "req-0".
Proof.
  destruct (@response_and_audit_row_share_the_request_id utcRuntime
              acceptingCollaborators leadRequest liveKeyWorld)
    as (response & row & body & E & _ & B & R & I).
  - discriminate.
  - reflexivity.
  - intros p b. by apply emits_ret.
  - exists response, row, body. repeat split; assumption.
Defined.

Lemma audit_row_holds_no_secret_field_witness :
  exists row,
    logs (snd (@serve utcRuntime acceptingCollaborators leadRequest liveKeyWorld))
    = [row]
    /\ forall body, log_request_body row = Some body -> body !! "token" = None.
Proof.
  destruct (@audit_row_holds_no_secret_field utcRuntime acceptingCollaborators
              leadRequest liveKeyWorld)
    as (response & row & _ & L & S & _).
  - discriminate.
  - reflexivity.
  - intros p b. by apply emits_ret.
  - exists row. split; [exact L|]. intros body E. exact (proj1 (proj2 (S body E))).
Defined.

Lemma retry_after_header_matches_body_witness :
  exists response retry,
    fst (@serve utcRuntime acceptingCollaborators leadRequest blockedKeyWorld)
    = Returned response
    /\ header "Retry-After" (resp_headers response) = Some (String_of retry).
Proof.
  destruct (fst (@serve utcRuntime acceptingCollaborators leadRequest
                   blockedKeyWorld)) as [response|message] eqn:E;
    [|vm_compute in E; discriminate E].
  assert (S : status response = 429).
  { vm_compute in E. injection E as <-. reflexivity. }
  destruct (@retry_after_header_matches_body utcRuntime acceptingCollaborators
              leadRequest blockedKeyWorld response)
    as (retry & body & Hh & _).
  - discriminate.
  - reflexivity.
  - intros p b. by apply emits_ret.
  - exact E.
  - exact S.
  - exists response, retry. split; [reflexivity | exact Hh].
Defined.

(** ** Requests that are turned down *)

Section Rejections.
Context `{Runtime}.

Lemma finalizeRequest_tracking context response w :
  tracking (snd (finalizeRequest context response w)) = tracking w.
Proof.
  unfold finalizeRequest, bind, newDate.
  destruct (requestBody context) as [b|].
  - rewrite sanitizeRequestBody_copy. reflexivity.
  - reflexivity.
Qed.

Lemma validateApiKey_tracking apiKey w :
  tracking (snd (validateApiKey apiKey w)) = tracking w.
Proof.
  unfold validateApiKey.
  destruct (String.eqb apiKey ""); [done|].
  destruct (matchesKeyFormat apiKey); simpl; [|done].
  unfold bind, select_single.
  destruct (single _) as [c|]; simpl; [|done].
  destruct (key_is_active c); simpl; [|done].
  destruct (bool_decide _); simpl; [done|].
  destruct (key_expires_at c) as [e|]; simpl; [|done].
  destruct (e <? _); simpl; done.
Qed.

Lemma denied_tracking a p w :
  allowed (fst (checkRateLimit a p w)) = false ->
  tracking (snd (checkRateLimit a p w)) = tracking w.
Proof.
  rewrite checkRateLimit_unfold.
  set (o := fst (checkRateLimit_read a p w)).
  destruct (minuteExceeded o || hourExceeded o || dayExceeded o) eqn:E.
  - destruct (decide_denied o (advance 3 w) E) as (_ & _ & _ & ->). done.
  - destruct (decide_allowed o (advance 3 w) E) as (A & _). congruence.
Qed.

Ltac finalize_on w0 T :=
  match goal with |- context [finalizeRequest ?c ?f w0] =>
    pose proof (finalizeRequest_tracking c f w0) as T;
    destruct (finalizeRequest c f w0) as [? ?]
  end; simpl in *.

Lemma tryBlock_turned_down cors submit1 submit2 req context w :
  let C1 := {| corsHeaders := cors; submitLead := submit1 |} in
  let C2 := {| corsHeaders := cors; submitLead := submit2 |} in
  (exists response,
     fst (fst (@tryBlock H C1 req context w)) = Ok response
     /\ turnedDown response
     /\ @tryBlock H C2 req context w = @tryBlock H C1 req context w
     /\ tracking (snd (@tryBlock H C1 req context w)) = tracking w)
  \/ match fst (fst (@tryBlock H C1 req context w)) with
     | Ok response => status response = 400 \/ status response = 201
     | Throw _ => True
     end.
Proof.
  intros C1 C2. subst C1 C2. unfold tryBlock, turnedDown, bind.
  cbn [corsHeaders submitLead].
  destruct (negb (String.eqb (method req) "POST")).
  { left. finalize_on w T. eexists. repeat split; [auto|exact T]. }
  destruct (extractApiKey req) as [apiKey|].
  2:{ left. finalize_on w T. eexists. repeat split; [auto|exact T]. }
  pose proof (validateApiKey_tracking apiKey w) as Tv.
  destruct (validateApiKey apiKey w) as [keyValidation w1]. simpl in Tv.
  destruct (negb (isValid keyValidation)).
  { left. finalize_on w1 T. eexists. repeat split; [auto|congruence]. }
  match goal with |- context [checkRateLimit ?a ?p w1] =>
    pose proof (denied_tracking a p w1) as Td;
    destruct (checkRateLimit a p w1) as [rateLimitResult w2] end.
  simpl in Td.
  destruct (allowed rateLimitResult) eqn:A; cbn [negb].
  2:{ left. finalize_on w2 T. eexists. repeat split; [auto|].
      rewrite T, Td; done. }
  right.
  destruct (json req) as [parsed|].
  2:{ match goal with |- context [finalizeRequest ?c ?f w2] =>
        destruct (finalizeRequest c f w2) as [u w'] end. simpl. auto. }
  unfold allocate. cbv beta iota zeta.
  match goal with |- context [submit1 ?p ?b ?w3] =>
    destruct (submit1 p b w3) as [[result|message] w4] end; [|done].
  destruct (negb (success result));
    match goal with |- context [finalizeRequest ?c ?f w4] =>
      destruct (finalizeRequest c f w4) as [u w'] end; simpl; auto.
Qed.

Lemma serve_unfold (C : Collaborators) (req : Request) (w : World) :
  @serve H C req w
  = if String.eqb (method req) "OPTIONS"
    then (Returned {| status := 200; resp_headers := @corsHeaders C;
                      resp_body := None |}, w)
    else match fst (getSupabaseClient w) with
         | Throw message => (Uncaught message, w)
         | Ok _ => @attempt H C req w
         end.
Proof.
  unfold serve. destruct (String.eqb (method req) "OPTIONS"); [done|].
  unfold bind.
  assert (Hw : snd (getSupabaseClient w) = w).
  { unfold getSupabaseClient. by destruct (_ || _). }
  destruct (getSupabaseClient w) as [[[]|message] w0]; simpl in *; by subst.
Qed.

(** X18. A request answered with 401, 405 or 429 never reaches the lead
    submission and uses up no quota: the handler does the same whatever
    the lead submission would do, and the counter rows are as before. *)
Theorem turned_down_requests_stop_at_the_edge
    (C1 C2 : Collaborators) (req : Request) (w : World) (response : Response) :
  @corsHeaders C1 = @corsHeaders C2 ->
  fst (@serve H C1 req w) = Returned response ->
  turnedDown response ->
  @serve H C2 req w = @serve H C1 req w
  /\ tracking (snd (@serve H C1 req w)) = tracking w.
Proof.
  destruct C1 as [cors submit1], C2 as [cors2 submit2]. simpl.
  intros <- E Hdown. revert E.
  rewrite !serve_unfold. cbn [corsHeaders].
  destruct (String.eqb (method req) "OPTIONS").
  { simpl. intros [= <-]. unfold turnedDown in Hdown. simpl in Hdown. lia. }
  destruct (fst (getSupabaseClient w)) as [[]|message]; [|done].
  unfold attempt, bind. cbn [corsHeaders].
  destruct (createRequestContext req "/submit-lead-api" w) as [context w1] eqn:Ec.
  assert (Tc : tracking w1 = tracking w).
  { unfold createRequestContext, bind in Ec. simpl in Ec. by injection Ec as <- <-. }
  destruct (tryBlock_turned_down cors submit1 submit2 req context w1)
    as [(r & Er & Dr & E2 & Tr)|Hpast]; cbv zeta in *.
  - rewrite E2.
    destruct (tryBlock req context w1) as [[[r'|m] context'] w2]; simpl in *;
      [|discriminate].
    intros _. split; [done|congruence].
  - destruct (tryBlock req context w1) as [[[r'|m] context'] w2]; simpl in *.
    + intros [= ->]. unfold turnedDown in Hdown. lia.
    + match goal with |- context [finalizeRequest ?c ?f w2] =>
        destruct (finalizeRequest c f w2) as [u w'] end. simpl.
      intros [= <-]. unfold turnedDown in Hdown. simpl in Hdown. lia.
Qed.
End Rejections.

Lemma turned_down_requests_stop_at_the_edge_witness :
  @serve utcRuntime failingCollaborators leadRequest blockedKeyWorld
  = @serve utcRuntime acceptingCollaborators leadRequest blockedKeyWorld.
Proof.
  destruct (fst (@serve utcRuntime acceptingCollaborators leadRequest
                   blockedKeyWorld)) as [response|message] eqn:E;
    [|vm_compute in E; discriminate E].
  assert (S : status response = 429).
  { vm_compute in E. injection E as <-. reflexivity. }
  apply (@turned_down_requests_stop_at_the_edge utcRuntime
           acceptingCollaborators failingCollaborators leadRequest
           blockedKeyWorld response eq_refl E).
  right. right. exact S.
Defined.

(** ** Phone numbers in the audit log *)

Lemma length_list_ascii (s : string) :
  length (list_ascii_of_string s) = String.length s.
Proof. induction s as [|c s IH]; simpl; [done|]. by rewrite IH. Qed.

Lemma hyphenSevenDigits_length (l : list ascii) :
  hyphenSevenDigits l = true -> (7 <= length l <= 8)%nat.
Proof.
  unfold hyphenSevenDigits, sevenDigits.
  rewrite orb_true_iff. intros [E|E].
  - destruct l as [|c r]; [discriminate|].
    rewrite !andb_true_iff, Nat.eqb_eq in E. simpl. lia.
  - rewrite andb_true_iff, Nat.eqb_eq in E. lia.
Qed.

Lemma israeli_phone_length (phone : string) :
  ISRAELI_PHONE_REGEX phone = true ->
  (9 <= String.length phone <= 11)%nat.
Proof.
  unfold ISRAELI_PHONE_REGEX. rewrite <- length_list_ascii.
  destruct (list_ascii_of_string phone) as [|zero rest]; [discriminate|].
  rewrite andb_true_iff, orb_true_iff. intros [_ [E|E]].
  - destruct rest as [|d1 rest1]; [discriminate|].
    rewrite andb_true_iff, orb_true_iff in E. destruct E as [_ [E|E]].
    + apply hyphenSevenDigits_length in E. simpl. lia.
    + destruct rest1 as [|d2 rest2]; [discriminate|].
      rewrite andb_true_iff in E. destruct E as [_ E].
      apply hyphenSevenDigits_length in E. simpl. lia.
  - rewrite andb_true_iff, Nat.eqb_eq in E. simpl. lia.
Qed.

(** What passes the phone check is a value that is there and whose
    rendering as a string matches the expression. *)
Lemma clientPhoneAccepted_value (data : gmap string JsValue) :
  clientPhoneAccepted data = true ->
  exists v, data !! "client_phone" = Some v
            /\ ISRAELI_PHONE_REGEX (jsToString v) = true.
Proof.
  unfold clientPhoneAccepted, ISRAELI_PHONE_REGEX_test.
  rewrite negb_true_iff, orb_false_iff, negb_false_iff.
  intros [F T]. destruct (data !! "client_phone") as [v|]; [|discriminate F].
  by exists v.
Qed.

(** X19. A [client_phone] that passes the phone check of
    [validateLeadRequest] is there, and the string it is rendered to is 9
    to 11 characters long.  When it is a string, what is logged of it has
    the same length, shows its last four characters and nothing else:
    five to seven stars come before them.  When it is not a string (the
    check renders its argument to a string first, so an array that holds
    one phone number passes), it is logged as it came, unmasked. *)
Theorem accepted_phone_is_logged_masked (fields : gmap string JsValue) :
  clientPhoneAccepted fields = true ->
  exists v,
    fields !! "client_phone" = Some v
    /\ (9 <= String.length (jsToString v) <= 11)%nat
    /\ (forall phone, v = JsString phone ->
        exists masked,
          sanitizedFields fields !! "client_phone" = Some (JsString masked)
          /\ String.length masked = String.length phone
          /\ String.substring (String.length phone - 4) 4 masked
             = String.substring (String.length phone - 4) 4 phone
          /\ String.substring 0 (String.length phone - 4) masked
             = stars (String.length phone - 4)
          /\ (5 <= String.length phone - 4 <= 7)%nat)
    /\ ((forall phone, v <> JsString phone) ->
        sanitizedFields fields !! "client_phone" = Some v).
Proof.
  intros Acc. destruct (clientPhoneAccepted_value fields Acc) as (v & E & T).
  pose proof (israeli_phone_length _ T) as L.
  exists v. split; [done|]. split; [done|]. split.
  - intros phone ->. simpl in L.
    destruct (maskPhone_long phone ltac:(lia)) as (Lm & S4 & St).
    exists (maskPhone phone). repeat split; try done; try lia.
    apply sanitizedFields_client_phone; [done|].
    intros ->. simpl in L. lia.
  - intros N. unfold sanitizedFields. rewrite !lookup_delete_ne by done.
    rewrite E. destruct v; try done. by destruct (N s).
Qed.

Lemma maskPhone_again (phone : string) :
  maskPhone (maskPhone phone) = maskPhone phone.
Proof.
  destruct (Nat.ltb_spec 4 (String.length phone)) as [Hlen|Hlen].
  - destruct (maskPhone_long phone Hlen) as (L & S4 & _).
    unfold maskPhone at 1. rewrite L, (proj2 (Nat.ltb_lt _ _) Hlen), S4.
    unfold maskPhone. by rewrite (proj2 (Nat.ltb_lt _ _) Hlen).
  - assert (E : maskPhone phone = "****")
      by (unfold maskPhone; by rewrite (proj2 (Nat.ltb_ge _ _) Hlen)).
    rewrite E. reflexivity.
Qed.

(** X20. Sanitizing what was sanitized changes nothing: a masked phone
    masks to itself and the removed fields stay removed. *)
Theorem sanitizing_twice_changes_nothing (fields : gmap string JsValue) :
  sanitizedFields (sanitizedFields fields) = sanitizedFields fields.
Proof.
  destruct (sanitizedFields_removed fields) as (P & T & K).
  unfold sanitizedFields at 1.
  set (out := sanitizedFields fields) in *.
  assert (M : match out !! "client_phone" with
              | Some (JsString phone) =>
                if String.eqb phone "" then out
                else <["client_phone" := JsString (maskPhone phone)]> out
              | _ => out
              end = out).
  { destruct (out !! "client_phone") as [[| | |phone| |]|] eqn:E; try done.
    destruct (String.eqb phone "") eqn:Ee; [done|].
    apply insert_id. rewrite E. f_equal. f_equal.
    subst out. unfold sanitizedFields in E.
    rewrite !lookup_delete_ne in E by done.
    destruct (fields !! "client_phone") as [[| | |p0| |]|] eqn:E0;
      try congruence.
    destruct (String.eqb p0 "") eqn:E1.
    - apply String.eqb_eq in E1. subst. rewrite E0 in E. injection E as <-.
      discriminate.
    - rewrite lookup_insert_eq in E. injection E as <-.
      symmetry. apply maskPhone_again. }
  rewrite M.
  rewrite (delete_id _ _ P), (delete_id _ _ T), (delete_id _ _ K). done.
Qed.

Lemma accepted_phone_is_logged_masked_witness :
  (exists masked,
     sanitizedFields (<["client_phone" := JsString "0501234567"]> ∅)
       !! "client_phone" = Some (JsString masked)
     /\ String.length masked = 10%nat)
  /\ sanitizedFields (<["client_phone" := JsArray [JsString "0501234567"]]> ∅)
       !! "client_phone" = Some (JsArray [JsString "0501234567"]).
Proof.
  assert (Acc : forall v, ISRAELI_PHONE_REGEX_test v = true ->
                falsy (Some v) = false ->
                clientPhoneAccepted (<["client_phone" := v]> ∅) = true).
  { intros v T F. unfold clientPhoneAccepted.
    rewrite lookup_insert_eq. simpl. cbn in F. rewrite F, T. reflexivity. }
  split.
  - destruct (accepted_phone_is_logged_masked
                (<["client_phone" := JsString "0501234567"]> ∅)
                (Acc (JsString "0501234567") eq_refl eq_refl))
      as (v & E & _ & S & _).
    rewrite lookup_insert_eq in E. injection E as <-.
    destruct (S "0501234567" eq_refl) as (masked & M & L & _).
    exists masked. exact (conj M L).
  - destruct (accepted_phone_is_logged_masked
                (<["client_phone" := JsArray [JsString "0501234567"]]> ∅)
                (Acc (JsArray [JsString "0501234567"]) eq_refl eq_refl))
      as (v & E & _ & _ & N).
    rewrite lookup_insert_eq in E. injection E as <-.
    apply N. discriminate.
Defined.
